(** * MERGS electron optics: the beamline drawing program [draw_magnets.py]

    A shallow embedding of the drawing pipeline: the parameter parser, the
    four element renderers, the polynomial pole-face evaluator and the SVG
    serializer, followed by the properties established about them.

    Numbers.  The program computes with Python floats and NumPy [float64]
    arrays.  The embedding is generic in the number type [F]: the arithmetic
    the interpreter performs is an interface ([FloatOps], [ElemOps]) and the
    Python-level behaviour on top of it (which operation raises, what is an
    [int] and what a [float]) is written out.  Structural theorems hold for
    every implementation of the interface.  Two implementations are given:
    [B64_FloatOps], the IEEE 754 binary64 numbers the interpreter computes
    with, and [Q_FloatOps], exact rationals, on which runs whose values
    are exactly representable can be followed by hand. *)

From Stdlib Require Import List String Ascii ZArith QArith Qround Qabs Qpower Bool Lia.
From Stdlib Require Import Permutation.
From Stdlib Require Import DecimalString.
From Stdlib Require Floats.PrimFloat Floats.SpecFloat Floats.FloatOps.
Import ListNotations.

Set Implicit Arguments.

(* ================================================================== *)
(** ** Exceptions *)

(** The Python exceptions the program can raise. *)
Inductive exn : Type :=
| ZeroDivisionError
| OverflowError
| ValueError
| IndexError
| KeyError.

Inductive result (A : Type) : Type :=
| Ok (a : A)
| Raise (e : exn).

Arguments Ok {A} a.
Arguments Raise {A} e.

Definition rbind {A B : Type} (r : result A) (k : A -> result B) : result B :=
  match r with
  | Ok a => k a
  | Raise e => Raise e
  end.

Declare Scope result_scope.
Delimit Scope result_scope with result.
Notation "x <- r ;; k" := (rbind r (fun x => k))
  (at level 61, r at next level, right associativity) : result_scope.
Notation "' p <- r ;; k" := (rbind r (fun x => match x with p => k end))
  (at level 61, p pattern, r at next level, right associativity) : result_scope.

(** [for ... in ...: acc = body(acc, item)] where the body may raise. *)
Fixpoint rfold {A B : Type} (body : A -> B -> result A) (items : list B) (acc : A)
  : result A :=
  match items with
  | [] => Ok acc
  | b :: rest => rbind (body acc b) (rfold body rest)
  end.

(** [[f(a) for a in items]] where [f] may raise. *)
Fixpoint rmap {A B : Type} (f : A -> result B) (items : list A) : result (list B) :=
  match items with
  | [] => Ok []
  | a :: rest =>
      rbind (f a) (fun b => rbind (rmap f rest) (fun bs => Ok (b :: bs)))
  end.

(* ================================================================== *)
(** ** The arithmetic interface *)

(** Float arithmetic as the hardware and NumPy provide it: total
    operations; nothing here raises. *)
Class FloatOps (F : Type) : Type := {
  of_Q : Q -> F;                 (* a numeric literal / conversion *)
  fadd : F -> F -> F;
  fsub : F -> F -> F;
  fmul : F -> F -> F;
  fdiv : F -> F -> F;
  fneg : F -> F;
  fpow : F -> Z -> F;            (* [x ** n], integer exponent *)
  feqb : F -> F -> bool;         (* [==] *)
  fltb : F -> F -> bool;         (* [<] *)
  fleb : F -> F -> bool;         (* [<=] *)
  fis_nan : F -> bool;           (* [math.isnan] *)
  fis_inf : F -> bool;           (* [math.isinf] *)
  ftrunc : F -> Z;               (* [int(x)] of a finite [x], towards zero *)
  fformat6 : F -> string         (* [f"{x:.6f}"] *)
}.

(** [numpy.sin], [numpy.cos], [numpy.pi] and [numpy.hypot]. *)
Class ElemOps (F : Type) : Type := {
  sin : F -> F;
  cos : F -> F;
  pi : F;
  hypot : F -> F -> F
}.

Arguments of_Q {F _} _%_Q.

Declare Scope py_scope.
Delimit Scope py_scope with py.
Infix "+" := fadd : py_scope.
Infix "-" := fsub : py_scope.
Infix "*" := fmul : py_scope.
Infix "**" := fpow (at level 30, right associativity) : py_scope.
Notation "- x" := (fneg x) : py_scope.
Infix "<?" := fltb : py_scope.
Infix "<=?" := fleb : py_scope.
Infix "==?" := feqb (at level 70) : py_scope.

(** An operand of a draw command is a Python number: the arc flags are
    [int] literals, every coordinate is a float. *)
Inductive pynum (F : Type) : Type :=
| PyInt (z : Z)
| PyFloat (f : F).

Arguments PyInt {F} z.
Arguments PyFloat {F} f.

Section Numbers.
Context {F : Type} `{FloatOps F}.
Local Open Scope py_scope.
Local Open Scope result_scope.

Definition of_Z (z : Z) : F := of_Q (inject_Z z).

(** Python's [a / b] on floats. *)
Definition py_div (a b : F) : result F :=
  if b ==? of_Q 0 then Raise ZeroDivisionError else Ok (fdiv a b).

(** Python's [a ** n] on a float and an [int] ([float_pow]): zero to a
    negative power raises ZeroDivisionError; a finite base whose power
    is too large for a float raises OverflowError.  An exponent 0 gives
    1.0 and a NaN or infinite base gives the IEEE result, without an
    error; a result that underflows to zero is returned as it is. *)
Definition py_pow (a : F) (n : Z) : result F :=
  if (a ==? of_Q 0) && (n <? 0)%Z then Raise ZeroDivisionError
  else if negb (n =? 0)%Z && negb (fis_nan a) && negb (fis_inf a) && fis_inf (a ** n)
       then Raise OverflowError
  else Ok (a ** n).

(** A coordinate read back out of a command's operand list. *)
Definition to_float (v : pynum F) : F :=
  match v with
  | PyInt z => of_Z z
  | PyFloat f => f
  end.

(* ---------------------------------------------------------------- *)
(** *** NumPy arrays *)

(** One-dimensional arrays are lists; binary operators work elementwise. *)
Fixpoint map2 {A B C : Type} (f : A -> B -> C) (a : list A) (b : list B) : list C :=
  match a, b with
  | x :: a', y :: b' => f x y :: map2 f a' b'
  | _, _ => []
  end.

(** [numpy.where(cond, a, b)]. *)
Fixpoint where_ {A : Type} (cond : list bool) (a b : list A) : list A :=
  match cond, a, b with
  | c :: cond', x :: a', y :: b' => (if c then x else y) :: where_ cond' a' b'
  | _, _, _ => []
  end.

(** Boolean-mask indexing [a[mask]]. *)
Fixpoint compress {A : Type} (mask : list bool) (a : list A) : list A :=
  match mask, a with
  | m :: mask', x :: a' => if m then x :: compress mask' a' else compress mask' a'
  | _, _ => []
  end.

(** [numpy.linspace(start, stop, num)] with the end point included: the
    samples [start + k*step], the last one set to [stop] itself. *)
Definition linspace (start stop : F) (num : nat) : list F :=
  let step := fdiv (stop - start) (of_Z (Z.of_nat (num - 1))) in
  match num with
  | O => []
  | S O => [start]
  | S n =>
      map (fun k => of_Z (Z.of_nat k) * step + start) (seq 0 n) ++ [stop]
  end.

(** [enumerate(l)]. *)
Definition enumerate {A : Type} (l : list A) : list (Z * A) :=
  combine (map Z.of_nat (seq 0 (List.length l))) l.

(* ---------------------------------------------------------------- *)
(** *** [evaluate_polynomial] *)

(** [y_middle = zeros_like(x); for i, c in enumerate(coefficients):
    y_middle += c*x**i], for one entry of the array. *)
Definition y_middle_at (coefficients : list F) (x : F) : F :=
  fold_left (fun y ic => y + snd ic * x ** fst ic) (enumerate coefficients) (of_Q 0).

(** The value [y0] and slope [m] of the polynomial at a breakpoint:
    [y0 += c*bp**i; m += c*i*bp**(i - 1)].  The breakpoint is a Python
    scalar, so [bp**(i - 1)] raises for [i = 0] when [bp] is zero. *)
Definition tangent_step (breakpoint : F) (acc : F * F) (ic : Z * F) : result (F * F) :=
  let '(y0, m) := acc in
  let '(i, coefficient) := ic in
  p <- py_pow breakpoint i ;;
  let y0 := y0 + coefficient * p in
  q <- py_pow breakpoint (i - 1) ;;
  let m := m + coefficient * of_Z i * q in
  Ok (y0, m).

Definition tangent_at (coefficients : list F) (breakpoint : F) : result (F * F) :=
  rfold (tangent_step breakpoint) (enumerate coefficients) (of_Q 0, of_Q 0).

(** Both call sites pass the two breakpoints, so the [-inf]/[inf]
    defaults are not modelled. *)
Definition evaluate_polynomial (x : list F) (coefficients : list F)
    (lower_breakpoint upper_breakpoint : F) : result (list F) :=
  let y_middle := map (y_middle_at coefficients) x in
  '(y0_lower, m_lower) <- tangent_at coefficients lower_breakpoint ;;
  let y_lower := map (fun xi => m_lower * (xi - lower_breakpoint) + y0_lower) x in
  '(y0_upper, m_upper) <- tangent_at coefficients upper_breakpoint ;;
  let y_upper := map (fun xi => m_upper * (xi - upper_breakpoint) + y0_upper) x in
  Ok (where_ (map (fun xi => xi <? lower_breakpoint) x)
        y_lower
        (where_ (map (fun xi => xi <? upper_breakpoint) x)
           y_middle
           y_upper)).

End Numbers.

(* ================================================================== *)
(** ** Exact rational arithmetic *)

(** [int(x)]: truncation towards zero. *)
Definition Qtrunc (q : Q) : Z := Z.quot (Qnum q) (Zpos (Qden q)).

Definition string_of_Z (z : Z) : string := NilZero.string_of_int (Z.to_int z).

(** Round a non-negative rational to the nearest integer, ties to even. *)
Definition round_half_even (q : Q) : Z :=
  let f := Qfloor q in
  match Qcompare (q - inject_Z f) (1 # 2) with
  | Lt => f
  | Gt => (f + 1)%Z
  | Eq => if Z.even f then f else (f + 1)%Z
  end.

Fixpoint zeros (n : nat) : string :=
  match n with
  | O => EmptyString
  | S n' => String "0" (zeros n')
  end.

(** Left-pad with zeros to the given width. *)
Definition zero_pad (width : nat) (s : string) : string :=
  (zeros (width - String.length s) ++ s)%string.

(** [f"{x:.6f}"] of an exact value. *)
Definition Q_format6 (q : Q) : string :=
  let n := round_half_even (Qabs q * 1000000) in
  ((if Qle_bool 0 q then "" else "-")
   ++ string_of_Z (n / 1000000) ++ "." ++ zero_pad 6 (string_of_Z (n mod 1000000)))%string.

(** Every operation returns a reduced fraction, so results can be compared
    with [=]. *)
#[export] Instance Q_FloatOps : FloatOps Q := {|
  of_Q := Qred;
  fadd a b := Qred (a + b);
  fsub a b := Qred (a - b);
  fmul a b := Qred (a * b);
  fdiv a b := Qred (a / b);
  fneg a := Qred (- a);
  fpow a n := Qred (Qpower a n);
  feqb := Qeq_bool;
  fltb a b := negb (Qle_bool b a);
  fleb := Qle_bool;
  fis_nan _ := false;
  fis_inf _ := false;
  ftrunc := Qtrunc;
  fformat6 := Q_format6
|}.

(* ================================================================== *)
(** ** Binary64 arithmetic *)

(** Python's [float] is the IEEE 754 binary64 format, here the machine
    floats of the proof assistant, whose operations round to nearest,
    ties to even. *)
Module B64.

Abbreviation float := PrimFloat.float.

(** The exact value of a finite float (0 for the others). *)
Definition to_Q (f : float) : Q :=
  match FloatOps.Prim2SF f with
  | SpecFloat.S754_finite s m e =>
      let z := if s then Zneg m else Zpos m in
      if (0 <=? e)%Z then inject_Z (z * 2 ^ e) else Qmake z (Z.to_pos (2 ^ (- e)))
  | _ => 0
  end.

(** The float nearest to a rational: the quotient is computed to 64
    significant bits or more, with a sticky bit for the remainder, and
    rounded once.  This is [float(text)] on a decimal literal and the
    value of a literal in the program text. *)
Definition of_Q (q : Q) : float :=
  let n := Qnum q in
  let d := Zpos (Qden q) in
  if (n =? 0)%Z then PrimFloat.zero else
  let a := Z.abs n in
  let s := Z.min (Z.max 0 (64 + Z.log2 d - Z.log2 a)) 1200 in
  let q0 := (a * 2 ^ s / d)%Z in
  let r0 := (a * 2 ^ s mod d)%Z in
  let m := (2 * q0 + (if (r0 =? 0)%Z then 0 else 1))%Z in
  FloatOps.SF2Prim
    (SpecFloat.binary_normalize FloatOps.prec FloatOps.emax
       (if (n <? 0)%Z then - m else m) (- s - 1) false).

Definition is_finite (f : float) : bool :=
  negb (PrimFloat.is_nan f) && negb (PrimFloat.is_infinity f).

(** [x ** n] by repeated multiplication, for the bases on which that is
    exact: zero, the infinities and NaN. *)
Definition pow_special (f : float) (n : Z) : float :=
  let p := Z.iter (Z.abs n) (PrimFloat.mul f) PrimFloat.one in
  if (n <? 0)%Z then PrimFloat.div PrimFloat.one p else p.

(** [pow(x, n)] of the C library, taken as correctly rounded: the exact
    power of a finite nonzero base, rounded once; beyond the largest float
    the result is an infinity. *)
Definition pow (f : float) (n : Z) : float :=
  if (n =? 0)%Z then PrimFloat.one
  else if is_finite f && negb (PrimFloat.is_zero f) then of_Q (Qpower (to_Q f) n)
  else pow_special f n.

(** [int(x)] of a finite float. *)
Definition trunc (f : float) : Z := Qtrunc (to_Q f).

(** [f"{x:.6f}"]: the exact value of the float, rounded to six decimals. *)
Definition format6 (f : float) : string :=
  if PrimFloat.is_nan f then "nan"
  else if PrimFloat.is_infinity f
       then (if PrimFloat.ltb f PrimFloat.zero then "-inf" else "inf")
  else Q_format6 (to_Q f).

End B64.

#[export] Instance B64_FloatOps : FloatOps B64.float := {|
  of_Q := B64.of_Q;
  fadd := PrimFloat.add;
  fsub := PrimFloat.sub;
  fmul := PrimFloat.mul;
  fdiv := PrimFloat.div;
  fneg := PrimFloat.opp;
  fpow := B64.pow;
  feqb := PrimFloat.eqb;
  fltb := PrimFloat.ltb;
  fleb := PrimFloat.leb;
  fis_nan := PrimFloat.is_nan;
  fis_inf := PrimFloat.is_infinity;
  ftrunc := B64.trunc;
  fformat6 := B64.format6
|}.

(* ================================================================== *)
(** ** Path records and the shared path list *)

(** A draw command: the operator letter and its operands. *)
Definition command (F : Type) : Type := (string * list (pynum F))%type.

(** [class Path]. *)
Record Path (F : Type) : Type := mkPath {
  klass : string;
  commands : list (command F);
  zorder : Z
}.

Arguments mkPath {F} klass commands zorder.

(** A renderer runs against the caller's list [graphic], which it mutates
    in place, and either returns a value or raises; the list survives a
    raise. *)
Definition Draw (F A : Type) : Type := list (Path F) -> list (Path F) * result A.

Definition dret {F A : Type} (a : A) : Draw F A := fun graphic => (graphic, Ok a).

Definition dbind {F A B : Type} (m : Draw F A) (k : A -> Draw F B) : Draw F B :=
  fun graphic =>
    match m graphic with
    | (graphic', Ok a) => k a graphic'
    | (graphic', Raise e) => (graphic', Raise e)
    end.

(** [graphic.append(path)]. *)
Definition append {F : Type} (path : Path F) : Draw F unit :=
  fun graphic => (graphic ++ [path], Ok tt).

(** A computation that does not touch the list. *)
Definition lift {F A : Type} (r : result A) : Draw F A := fun graphic => (graphic, r).

(** [for item in items: acc = body(acc, item)] around renderer code. *)
Fixpoint dfor {F A B : Type} (body : A -> B -> Draw F A) (items : list B) (acc : A)
  : Draw F A :=
  match items with
  | [] => dret acc
  | b :: rest => dbind (body acc b) (dfor body rest)
  end.

(** The list after the call, and what the call returned. *)
Definition graphic_after {F A : Type} (m : Draw F A) (graphic : list (Path F)) : list (Path F) :=
  fst (m graphic).

Definition returned {F A : Type} (m : Draw F A) (graphic : list (Path F)) : result A :=
  snd (m graphic).

Declare Scope draw_scope.
Delimit Scope draw_scope with draw.
Notation "x <- m ;; k" := (dbind m (fun x => k))
  (at level 61, m at next level, right associativity) : draw_scope.
Notation "' p <- m ;; k" := (dbind m (fun x => match x with p => k end))
  (at level 61, p pattern, m at next level, right associativity) : draw_scope.
Notation "m ;;; k" := (dbind m (fun _ => k))
  (at level 61, right associativity) : draw_scope.

(* ---------------------------------------------------------------- *)
(** *** Sequence indexing *)

(** [l[-1]]. *)
Definition index_last {A : Type} (l : list A) : result A :=
  match rev l with
  | [] => Raise IndexError
  | a :: _ => Ok a
  end.

(** [l[-2::-1]]: from the last but one element down to the first. *)
Definition rev_but_last {A : Type} (l : list A) : list A := rev (removelast l).

(** [l[-2:]]. *)
Definition last_two {A : Type} (l : list A) : list A :=
  skipn (List.length l - 2) l.

(** [a, b = l]. *)
Definition unpack2 {A : Type} (l : list A) : result (A * A) :=
  match l with
  | [a; b] => Ok (a, b)
  | _ => Raise ValueError
  end.

(* ================================================================== *)
(** ** The element renderers *)

Section Renderers.
Context {F : Type} `{FloatOps F} `{ElemOps F}.
Local Open Scope string_scope.
Local Open Scope py_scope.
Local Open Scope draw_scope.

Definition CENTRAL_ENERGY : F := of_Q 13.5.

Definition draw_plane (x y θ left : F) (right : option F) : Draw F unit :=
  let right := match right with None => left | Some r => r end in
  let line := [
    ("M", [PyFloat (x + left * sin θ); PyFloat (y - left * cos θ)]);
    ("L", [PyFloat (x - right * sin θ); PyFloat (y + right * cos θ)])
  ] in
  append (mkPath "plane" line 1).

(** [x, y = line[-1][1]]. *)
Definition end_of_line (line : list (command F)) : result (F * F) :=
  rbind (index_last line) (fun c =>
  rbind (unpack2 (snd c)) (fun xy =>
  Ok (to_float (fst xy), to_float (snd xy)))).

Definition draw_drift_length (x y θ length : F) : Draw F (F * F) :=
  let line := [
    ("M", [PyFloat x; PyFloat y]);
    ("L", [PyFloat (x + length * cos θ); PyFloat (y + length * sin θ)])
  ] in
  append (mkPath "central-ray" line 2) ;;;
  lift (end_of_line line).

Definition draw_multipole_magnet (x y θ length radius : F) : Draw F (F * F) :=
  let block := [
    ("M", [PyFloat (x + radius * sin θ); PyFloat (y - radius * cos θ)]);
    ("L", [PyFloat (x - radius * sin θ); PyFloat (y + radius * cos θ)]);
    ("L", [PyFloat (x - radius * sin θ + length * cos θ);
           PyFloat (y + radius * cos θ + length * sin θ)]);
    ("L", [PyFloat (x + radius * sin θ + length * cos θ);
           PyFloat (y - radius * cos θ + length * sin θ)]);
    ("Z", [])
  ] in
  append (mkPath "magnet" block 1) ;;;
  let line := [
    ("M", [PyFloat x; PyFloat y]);
    ("L", [PyFloat (x + length * cos θ); PyFloat (y + length * sin θ)])
  ] in
  append (mkPath "central-ray" line 2) ;;;
  lift (end_of_line line).

(* ---------------------------------------------------------------- *)
(** *** The bending magnet *)

(** Lines 168-170: momentum, central bend radius and bend angle of the
    reference particle.  The divisions are Python float divisions. *)
Definition bend_kinematics (length field : F) : result (F * F * F) :=
  rbind (py_div ((of_Q 0.5110 + CENTRAL_ENERGY) * of_Q 1.602e-13) (of_Q 2.998e8))
    (fun central_momentum =>
  rbind (py_div central_momentum (of_Q 1.602e-19 * field))
    (fun central_bend_radius =>
  rbind (py_div length central_bend_radius)
    (fun bend_angle =>
  Ok (central_momentum, central_bend_radius, bend_angle)))).

(** [(1 if bend_angle > pi else 0)]. *)
Definition large_arc_flag (bend_angle : F) : pynum F :=
  PyInt (if pi <? bend_angle then 1 else 0).

(** Radial distance of a face point from the bend centre,
    [hypot(x - x_center, y - y_center)]. *)
Definition radial_distance (x_center y_center : F) (p : F * F) : F :=
  hypot (fst p - x_center) (snd p - y_center).

(** Lines 181-186 for the entry face (heading [θ], profile [ζ_back]) and
    190-195 for the exit face (heading [θ + bend_angle], profile
    [ζ_front]): the sampled pole-face points, then the points kept by the
    mask [R <= max_extended_radius]. *)
Definition face_samples (x_center y_center central_bend_radius : F)
    (ξ ζ : list F) (φ : F) : list F * list F :=
  let sin_φ := sin φ in
  let cos_φ := cos φ in
  (map2 (fun ξi ζi => x_center + (central_bend_radius + ξi) * sin_φ + ζi * cos_φ) ξ ζ,
   map2 (fun ξi ζi => y_center - (central_bend_radius + ξi) * cos_φ + ζi * sin_φ) ξ ζ).

Definition within_radius (x_center y_center max_extended_radius : F)
    (x_face y_face : list F) : list bool :=
  map (fun R => R <=? max_extended_radius)
      (map2 (fun x y => radial_distance x_center y_center (x, y)) x_face y_face).

Definition pole_face (x_center y_center central_bend_radius max_extended_radius : F)
    (ξ ζ : list F) (φ : F) : list F * list F :=
  let '(x_face, y_face) := face_samples x_center y_center central_bend_radius ξ ζ φ in
  let mask := within_radius x_center y_center max_extended_radius x_face y_face in
  (compress mask x_face, compress mask y_face).

(** Lines 197-217: the closed outline of the iron block. *)
Definition block_outline (x_center y_center θ bend_angle
    min_extended_radius max_extended_radius : F)
    (x_back y_back x_front y_front : list F) : result (list (command F)) :=
  rbind (index_last x_back) (fun x_back_last =>
  rbind (index_last y_back) (fun y_back_last =>
  rbind (index_last x_front) (fun x_front_last =>
  rbind (index_last y_front) (fun y_front_last =>
  Ok ([ ("M", [PyFloat x_back_last; PyFloat y_back_last]);
        ("A", [PyFloat max_extended_radius; PyFloat max_extended_radius;
               PyInt 0; large_arc_flag bend_angle; PyInt 1;
               PyFloat x_front_last; PyFloat y_front_last]) ]
      ++ map (fun xy => ("L", [PyFloat (fst xy); PyFloat (snd xy)]))
             (combine (rev_but_last x_front) (rev_but_last y_front))
      ++ [ ("L", [PyFloat (x_center + min_extended_radius * sin (θ + bend_angle));
                  PyFloat (y_center - min_extended_radius * cos (θ + bend_angle))]);
           ("A", [PyFloat min_extended_radius; PyFloat min_extended_radius;
                  PyInt 0; large_arc_flag bend_angle; PyInt 0;
                  PyFloat (x_center + min_extended_radius * sin θ);
                  PyFloat (y_center - min_extended_radius * cos θ)]) ]
      ++ map (fun xy => ("L", [PyFloat (fst xy); PyFloat (snd xy)]))
             (combine x_back y_back)
      ++ [ ("Z", []) ])%list)))).

(** Lines 221-229: one reference arc. *)
Definition reference_arc (x_center y_center θ bend_angle radius : F) : list (command F) :=
  [ ("M", [PyFloat (x_center + radius * sin θ); PyFloat (y_center - radius * cos θ)]);
    ("A", [PyFloat radius; PyFloat radius;
           PyInt 0; large_arc_flag bend_angle; PyInt 1;
           PyFloat (x_center + radius * sin (θ + bend_angle));
           PyFloat (y_center - radius * cos (θ + bend_angle))]) ].

(** [x, y = arc[-1][1][-2:]]. *)
Definition end_of_arc (arc : list (command F)) : result (F * F) :=
  rbind (index_last arc) (fun c =>
  rbind (unpack2 (last_two (snd c))) (fun xy =>
  Ok (to_float (fst xy), to_float (snd xy)))).

(** Lines 168-217, which do not touch [graphic]: the bend centre, radius
    and angle, and the outline of the iron block. *)
Definition bending_magnet_block (x y θ length field
    min_bend_radius max_bend_radius gap_height : F)
    (in_shape_parameters out_shape_parameters : list F)
    : result (F * F * F * F * list (command F)) :=
  rbind (bend_kinematics length field) (fun kinematics =>
  let '(central_momentum, central_bend_radius, bend_angle) := kinematics in
  let x_center := x - central_bend_radius * sin θ in
  let y_center := y + central_bend_radius * cos θ in

  let min_extended_radius := min_bend_radius - of_Q 1.5 * gap_height in
  let max_extended_radius := max_bend_radius + of_Q 1.5 * gap_height in

  let ξ := linspace (min_extended_radius - central_bend_radius)
                    (max_extended_radius - central_bend_radius) 21 in
  rbind (evaluate_polynomial ξ (of_Q 0 :: in_shape_parameters)
           (min_bend_radius - central_bend_radius)
           (max_bend_radius - central_bend_radius)) (fun ζ_back =>
  let '(x_back, y_back) :=
    pole_face x_center y_center central_bend_radius max_extended_radius ξ ζ_back θ in
  rbind (evaluate_polynomial ξ (of_Q 0 :: out_shape_parameters)
           (min_bend_radius - central_bend_radius)
           (max_bend_radius - central_bend_radius)) (fun ζ =>
  let ζ_front := map fneg ζ in
  let '(x_front, y_front) :=
    pole_face x_center y_center central_bend_radius max_extended_radius ξ ζ_front
              (θ + bend_angle) in

  rbind (block_outline x_center y_center θ bend_angle
           min_extended_radius max_extended_radius
           x_back y_back x_front y_front) (fun block =>
  Ok (x_center, y_center, central_bend_radius, bend_angle, block))))).

(** Lines 218-234: the block and the three reference arcs are appended,
    and the ray leaves from the end of the last arc. *)
Definition draw_bending_magnet (x y θ length field
    min_bend_radius max_bend_radius gap_height : F)
    (in_shape_parameters out_shape_parameters : list F) : Draw F (F * F * F) :=
  '(x_center, y_center, central_bend_radius, bend_angle, block) <-
    lift (bending_magnet_block x y θ length field
            min_bend_radius max_bend_radius gap_height
            in_shape_parameters out_shape_parameters) ;;
  append (mkPath "magnet" block 1) ;;;

  arc <- dfor (fun _ (item : F * string) =>
                 let '(radius, klass) := item in
                 let arc := reference_arc x_center y_center θ bend_angle radius in
                 append (mkPath klass arc 2) ;;;
                 dret arc)
              [(max_bend_radius, "guide"); (min_bend_radius, "guide");
               (central_bend_radius, "central-ray")]
              [] ;;

  '(x, y) <- lift (end_of_arc arc) ;;
  let θ := θ + bend_angle in
  dret (x, y, θ).

End Renderers.

(* ================================================================== *)
(** ** The serializer *)

(** [sorted(l, key=key)]: Python's sort is stable, so its result is the one
    of the stable insertion sort. *)
Fixpoint insert_by {A : Type} (key : A -> Z) (a : A) (l : list A) : list A :=
  match l with
  | [] => [a]
  | b :: l' => if (key a <=? key b)%Z then a :: l else b :: insert_by key a l'
  end.

Definition sorted {A : Type} (key : A -> Z) (l : list A) : list A :=
  fold_right (insert_by key) [] l.

(** [sep.join(items)]. *)
Fixpoint join (sep : string) (items : list string) : string :=
  match items with
  | [] => EmptyString
  | [s] => s
  | s :: rest => (s ++ sep ++ join sep rest)%string
  end.

Definition quote : string := String (ascii_of_nat 34) EmptyString.
Definition newline : string := String (ascii_of_nat 10) EmptyString.

Section Serializer.
Context {F : Type} `{FloatOps F}.
Local Open Scope string_scope.
Local Open Scope py_scope.
Local Open Scope result_scope.

(** [x == int(x)] holds for every [int].  On a float, [int(x)] raises
    ValueError for a NaN and OverflowError for an infinity; for a finite
    float with an integer value the format code [d] is refused with
    ValueError. *)
Definition format_number (x : pynum F) : result string :=
  match x with
  | PyInt z => Ok (string_of_Z z)
  | PyFloat f =>
      if fis_nan f then Raise ValueError
      else if fis_inf f then Raise OverflowError
      else if f ==? of_Z (ftrunc f) then Raise ValueError
      else Ok (fformat6 f)
  end.

(** The [d] attribute of one path. *)
Definition path_data (path : Path F) : result string :=
  parts <- rmap (fun c : command F =>
                   args <- rmap format_number (snd c) ;;
                   Ok (fst c ++ join "," args))
                (commands path) ;;
  Ok (join " " parts).

Definition svg_header : string :=
  "<?xml version=" ++ quote ++ "1.0" ++ quote ++ " encoding=" ++ quote ++ "UTF-8"
    ++ quote ++ "?>" ++ newline ++
  "<svg xmlns=" ++ quote ++ "http://www.w3.org/2000/svg" ++ quote ++ " version="
    ++ quote ++ "1.1" ++ quote ++ " viewBox=" ++ quote ++ ".00 .00 1.00 1.00" ++ quote
    ++ " width=" ++ quote ++ "1m" ++ quote ++ " height=" ++ quote ++ "1m" ++ quote
    ++ ">" ++ newline ++
  "  <style>" ++ newline ++
  "    .magnet { fill: #8b959e; stroke: none; }" ++ newline ++
  "    .plane { fill: none; stroke: #8b959e; stroke-width: .01; stroke-linecap: butt; }"
    ++ newline ++
  "    .central-ray { fill: none; stroke: #750014; stroke-width: .01; stroke-linecap: round; }"
    ++ newline ++
  "    .guide { fill: none; stroke: #ffffff; stroke-width: .005; stroke-linecap: butt; stroke-dasharray: .01 }"
    ++ newline ++
  "  </style>" ++ newline.

(** The document [write_SVG] writes to [filename]; the file system and
    the confirmation message are left out. *)
Definition write_SVG (filename : string) (paths : list (Path F)) : result string :=
  body <- rfold (fun svg_string path =>
                   d <- path_data path ;;
                   Ok (svg_string ++ "  <path class=" ++ quote ++ klass path ++ quote
                         ++ " d=" ++ quote ++ d ++ quote ++ " />" ++ newline))
                (sorted (@zorder F) paths) svg_header ;;
  Ok (body ++ "</svg>" ++ newline).

End Serializer.

(* ================================================================== *)
(** ** The parameter parser *)

Definition in_range (lo hi : nat) (c : ascii) : bool :=
  let n := nat_of_ascii c in ((lo <=? n) && (n <=? hi))%nat.

Definition is_digit (c : ascii) : bool := in_range 48 57 c.

(** Text is a [string] of the characters with code points 0 to 255
    (Latin-1); the parameter block and the output of the optics program
    are ASCII.

    [\s] for a [str] pattern: tab to carriage return, the four separators
    28..31, the space, NEXT LINE (133) and NO-BREAK SPACE (160). *)
Definition is_space (c : ascii) : bool :=
  in_range 9 13 c || in_range 28 31 c || (nat_of_ascii c =? 32)%nat
  || (nat_of_ascii c =? 133)%nat || (nat_of_ascii c =? 160)%nat.

(** [[a-z0-9_]] under [re.IGNORECASE]: among the code points 0 to 255
    these are the ASCII letters, the digits and the underscore. *)
Definition is_ident (c : ascii) : bool :=
  in_range 97 122 c || in_range 65 90 c || is_digit c || (nat_of_ascii c =? 95)%nat.

(** [[-+0-9.e]] under [re.IGNORECASE]: among the code points 0 to 255
    the case-insensitive match adds [E] only. *)
Definition is_value (c : ascii) : bool :=
  (nat_of_ascii c =? 45)%nat || (nat_of_ascii c =? 43)%nat || is_digit c
  || (nat_of_ascii c =? 46)%nat || (nat_of_ascii c =? 101)%nat || (nat_of_ascii c =? 69)%nat.

(** The longest prefix of characters in a class, and the rest. *)
Fixpoint span (p : ascii -> bool) (s : string) : string * string :=
  match s with
  | EmptyString => (EmptyString, EmptyString)
  | String c s' =>
      if p c then let '(a, b) := span p s' in (String c a, b)
      else (EmptyString, s)
  end.

Definition is_empty (s : string) : bool :=
  match s with EmptyString => true | _ => false end.

(** [re.match(r"^\s*([a-z0-9_]+)\s*:=\s*([-+0-9.e]+);$", line, re.IGNORECASE)]
    and its two groups.  Neighbouring pieces of the pattern accept
    disjoint character sets, so the only possible match takes each run
    whole. *)
Definition line_match (line : string) : option (string * string) :=
  let '(_, s) := span is_space line in
  let '(key, s) := span is_ident s in
  if is_empty key then None else
  let '(_, s) := span is_space s in
  match s with
  | String ":" (String "=" s) =>
      let '(_, s) := span is_space s in
      let '(value, s) := span is_value s in
      if is_empty value then None else
      match s with
      | String ";" EmptyString => Some (key, value)
      | _ => None
      end
  | _ => None
  end.

(** [re.split(r"\r?\n", output)]. *)
Fixpoint split_lines (output : string) : list string :=
  match output with
  | EmptyString => [EmptyString]
  | String c rest =>
      let lines := split_lines rest in
      if (nat_of_ascii c =? 10)%nat then EmptyString :: lines
      else if (nat_of_ascii c =? 13)%nat
              && match rest with
                 | String d _ => (nat_of_ascii d =? 10)%nat
                 | EmptyString => false
                 end
           then lines
      else match lines with
           | l :: ls => String c l :: ls
           | [] => [String c EmptyString]
           end
  end.

Fixpoint Z_of_digits (s : string) (acc : Z) : Z :=
  match s with
  | EmptyString => acc
  | String c s' => Z_of_digits s' (10 * acc + Z.of_nat (nat_of_ascii c - 48))%Z
  end.

Definition take_sign (s : string) : bool * string :=
  match s with
  | String "-" s' => (true, s')
  | String "+" s' => (false, s')
  | _ => (false, s)
  end.

(** [float(value)] on text over the alphabet of the second group: an
    optional sign, digits with an optional point (at least one digit), an
    optional exponent; anything else is a [ValueError].  The value is the
    exact decimal. *)
Definition float_of_literal (value : string) : result Q :=
  let '(negative, s) := take_sign value in
  let '(int_digits, s) := span is_digit s in
  let '(frac_digits, s) :=
    match s with
    | String "." s' => span is_digit s'
    | _ => (EmptyString, s)
    end in
  if is_empty int_digits && is_empty frac_digits then Raise ValueError else
  let mantissa := Z_of_digits (int_digits ++ frac_digits) 0 in
  let mantissa := if negative then (- mantissa)%Z else mantissa in
  let scale := (- Z.of_nat (String.length frac_digits))%Z in
  match s with
  | EmptyString => Ok (inject_Z mantissa * Qpower 10 scale)
  | String c s' =>
      if (nat_of_ascii c =? 101)%nat || (nat_of_ascii c =? 69)%nat then
        let '(exp_negative, s') := take_sign s' in
        let '(exp_digits, s') := span is_digit s' in
        if is_empty exp_digits || negb (is_empty s') then Raise ValueError else
        let e := Z_of_digits exp_digits 0 in
        let e := if exp_negative then (- e)%Z else e in
        Ok (inject_Z mantissa * Qpower 10 (scale + e))
      else Raise ValueError
  end.

(** A [dict] with string keys, in insertion order. *)
Definition dict (V : Type) : Type := list (string * V).

(** [d[key] = v]. *)
Fixpoint dict_set {V : Type} (key : string) (v : V) (d : dict V) : dict V :=
  match d with
  | [] => [(key, v)]
  | (k, w) :: d' => if String.eqb k key then (k, v) :: d' else (k, w) :: dict_set key v d'
  end.

(** [d[key]]. *)
Fixpoint dict_get {V : Type} (key : string) (d : dict V) : result V :=
  match d with
  | [] => Raise KeyError
  | (k, w) :: d' => if String.eqb k key then Ok w else dict_get key d'
  end.

Section Parser.
Context {F : Type} `{FloatOps F}.
Local Open Scope result_scope.

Definition parse_parameters (output : string) : result (dict F) :=
  rfold (fun parameters line =>
           match line_match line with
           | Some (key, value) =>
               v <- float_of_literal value ;;
               Ok (dict_set key (of_Q v) parameters)
           | None => Ok parameters
           end)
        (split_lines output) [].

End Parser.

(* ================================================================== *)
(** ** The pipeline *)

Definition PARAMETER_STRING : string := "
foil_width := 0.3000000E-01;
foil_height := 0.3000000E-01;
aperture_width := 0.3000000E-01;
aperture_height := 0.3000000E-01;
p_m5_quad_field := 0.4781922E-01;
p_m5_hex_field :=  0.000000;
p_dipole_field := 0.3201551;
p_m5_radius := 0.2927906E-01;
p_m5_length := 0.1171162;
p_dipole_halfwidth := 0.1300000;
p_dipole_length := 0.1982885;
p_drift_pre_aperture := 0.5000000;
p_drift_pre_bend := 0.2240527;
p_drift_post_bend := 0.5887938;
p_shape_in_1 := 0.6509721;
p_shape_in_2 :=  5.195103;
p_shape_in_3 :=  4.456388;
p_shape_out_1 := 0.4589667;
p_shape_out_2 := -2.745608;
p_shape_out_3 := -1.355867;

dipole_bend_angle :=  77.82928;
dipole_max_bend_radius := 0.2745744;
dipole_central_bend_radius := 0.1459745;
dipole_min_bend_radius := 0.7757664E-01;
dipole_gap_height := 0.3994749E-01;
hodoscope_right := 0.5552835;
hodoscope_left := 0.1747930;
".

Section Pipeline.
Context {F : Type} `{FloatOps F} `{ElemOps F}.
Local Open Scope string_scope.
Local Open Scope py_scope.
Local Open Scope draw_scope.

(** The body of [draw_magnets] between parsing and writing: the fixed
    sequence of elements along the reference ray. *)
Definition lay_out (parameters : dict F) : Draw F unit :=
  let get key := lift (dict_get key parameters) in
  let x := of_Q 0.15 in
  let y := of_Q 0.15 in
  let θ := of_Q 0 in
  foil_width <- get "foil_width" ;;
  draw_plane x y θ (fdiv foil_width (of_Q 2)) None ;;;
  p_drift_pre_aperture <- get "p_drift_pre_aperture" ;;
  '(x, y) <- draw_drift_length x y θ p_drift_pre_aperture ;;
  aperture_width <- get "aperture_width" ;;
  draw_plane x y θ (fdiv aperture_width (of_Q 2)) None ;;;
  p_m5_length <- get "p_m5_length" ;;
  p_m5_radius <- get "p_m5_radius" ;;
  '(x, y) <- draw_multipole_magnet x y θ p_m5_length p_m5_radius ;;
  p_drift_pre_bend <- get "p_drift_pre_bend" ;;
  '(x, y) <- draw_drift_length x y θ p_drift_pre_bend ;;
  p_dipole_length <- get "p_dipole_length" ;;
  p_dipole_field <- get "p_dipole_field" ;;
  dipole_min_bend_radius <- get "dipole_min_bend_radius" ;;
  dipole_max_bend_radius <- get "dipole_max_bend_radius" ;;
  dipole_gap_height <- get "dipole_gap_height" ;;
  p_shape_in_1 <- get "p_shape_in_1" ;;
  p_shape_in_2 <- get "p_shape_in_2" ;;
  p_shape_in_3 <- get "p_shape_in_3" ;;
  p_shape_out_1 <- get "p_shape_out_1" ;;
  p_shape_out_2 <- get "p_shape_out_2" ;;
  p_shape_out_3 <- get "p_shape_out_3" ;;
  '(x, y, θ) <- draw_bending_magnet x y θ
                  p_dipole_length p_dipole_field
                  dipole_min_bend_radius dipole_max_bend_radius dipole_gap_height
                  [p_shape_in_1; p_shape_in_2; p_shape_in_3]
                  [p_shape_out_1; p_shape_out_2; p_shape_out_3] ;;
  p_drift_post_bend <- get "p_drift_post_bend" ;;
  '(x, y) <- draw_drift_length x y θ p_drift_post_bend ;;
  hodoscope_left <- get "hodoscope_left" ;;
  hodoscope_right <- get "hodoscope_right" ;;
  draw_plane x y θ hodoscope_left (Some hodoscope_right).

(** [draw_magnets]: the document written to [picture.svg]. *)
Definition draw_magnets : result string :=
  rbind (parse_parameters PARAMETER_STRING) (fun parameters =>
  match lay_out parameters [] with
  | (paths, Ok _) => write_SVG "picture.svg" paths
  | (_, Raise e) => Raise e
  end).

End Pipeline.

(* ================================================================== *)
(** ** Elementary functions on the rationals *)

(** Stand-ins for the math library on [Q], to run the renderers on sample
    inputs: power series of 14 terms in fixed-point arithmetic for the
    sine and cosine, without range reduction and so meant for arguments of
    a few radians; a decimal for [pi]; an integer square root with 15
    decimals.  No theorem depends on how close they are to the real
    functions. *)
Definition Qfix (digits : Z) (q : Q) : Q :=
  Qmake (Qfloor (q * inject_Z (10 ^ digits))) (Z.to_pos (10 ^ digits)).

Fixpoint series (x2 term : Q) (k : Z) (n : nat) : Q :=
  match n with
  | O => 0
  | S n' =>
      term + series x2 (Qfix 24 (- term * x2 / inject_Z ((k + 1) * (k + 2)))) (k + 2) n'
  end.

Definition Qsin (x : Q) : Q :=
  let x := Qfix 24 x in
  Qred (Qfix 18 (series (Qfix 24 (x * x)) x 1 14)).

Definition Qcos (x : Q) : Q :=
  let x := Qfix 24 x in
  Qred (Qfix 18 (series (Qfix 24 (x * x)) 1 0 14)).

Definition Qpi : Q := 3.141592653589793.

Definition Qsqrt (v : Q) : Q :=
  Qred (Qmake (Z.sqrt (Qfloor (v * inject_Z (10 ^ 30)))) (Z.to_pos (10 ^ 15))).

Definition Qhypot (a b : Q) : Q := Qsqrt (a * a + b * b).

#[export] Instance Q_ElemOps : ElemOps Q := {|
  sin := Qsin;
  cos := Qcos;
  pi := Qred Qpi;
  hypot := Qhypot
|}.

(* ================================================================== *)
(** ** Vocabulary of the properties *)

(** [appends_only P m]: whatever the list was, running [m] leaves it in
    place and adds records satisfying [P] at its end, also when [m]
    raises. *)
Definition appends_only {F A : Type} (P : Path F -> Prop) (m : Draw F A) : Prop :=
  forall graphic, exists new, graphic_after m graphic = graphic ++ new /\ Forall P new.

(** A record's stacking order is the one of its shape class. *)
Definition stacking_ok {F : Type} (path : Path F) : Prop :=
  ((klass path = "magnet" \/ klass path = "plane")%string -> zorder path = 1%Z) /\
  ((klass path = "central-ray" \/ klass path = "guide")%string -> zorder path = 2%Z).

(** The large-arc flag, operand 3 of every arc command of a record, is the
    one for [bend_angle]. *)
Definition arc_flags_ok {F : Type} `{FloatOps F} `{ElemOps F} (bend_angle : F)
    (path : Path F) : Prop :=
  forall args, In ("A"%string, args) (commands path) ->
    nth_error args 3 = Some (large_arc_flag bend_angle).

Section BendingMagnetVocabulary.
Context {F : Type} `{FloatOps F} `{ElemOps F}.
Local Open Scope py_scope.

(** The four records of a bending magnet. *)
Definition bending_magnet_paths (θ min_bend_radius max_bend_radius : F)
    (geometry : F * F * F * F * list (command F)) : list (Path F) :=
  let '(x_center, y_center, central_bend_radius, bend_angle, block) := geometry in
  [ mkPath "magnet" block 1;
    mkPath "guide" (reference_arc x_center y_center θ bend_angle max_bend_radius) 2;
    mkPath "guide" (reference_arc x_center y_center θ bend_angle min_bend_radius) 2;
    mkPath "central-ray" (reference_arc x_center y_center θ bend_angle central_bend_radius) 2 ].

(** The ray state at the end of the central arc. *)
Definition bending_magnet_exit (θ : F) (geometry : F * F * F * F * list (command F))
  : F * F * F :=
  let '(x_center, y_center, central_bend_radius, bend_angle, _) := geometry in
  (x_center + central_bend_radius * sin (θ + bend_angle),
   y_center - central_bend_radius * cos (θ + bend_angle),
   θ + bend_angle).

(** The sampled points of a pole face, as pairs, before clipping. *)
Definition face_points (x_center y_center central_bend_radius : F)
    (ξ ζ : list F) (φ : F) : list (F * F) :=
  combine (fst (face_samples x_center y_center central_bend_radius ξ ζ φ))
          (snd (face_samples x_center y_center central_bend_radius ξ ζ φ)).

(** The clipping test [R <= max_extended_radius] on a point. *)
Definition within_max (x_center y_center max_extended_radius : F) (pt : F * F) : bool :=
  radial_distance x_center y_center pt <=? max_extended_radius.

(** The outline of the iron block, written with the two faces as lists of
    points. *)
Definition outline (x_center y_center θ bend_angle
    min_extended_radius max_extended_radius : F)
    (back front : list (F * F)) (back_last front_last : F * F) : list (command F) :=
  [ ("M"%string, [PyFloat (fst back_last); PyFloat (snd back_last)]);
    ("A"%string, [PyFloat max_extended_radius; PyFloat max_extended_radius;
           PyInt 0; large_arc_flag bend_angle; PyInt 1;
           PyFloat (fst front_last); PyFloat (snd front_last)]) ]
  ++ map (fun xy => ("L"%string, [PyFloat (fst xy); PyFloat (snd xy)]))
         (rev_but_last front)
  ++ [ ("L"%string, [PyFloat (x_center + min_extended_radius * sin (θ + bend_angle));
              PyFloat (y_center - min_extended_radius * cos (θ + bend_angle))]);
       ("A"%string, [PyFloat min_extended_radius; PyFloat min_extended_radius;
              PyInt 0; large_arc_flag bend_angle; PyInt 0;
              PyFloat (x_center + min_extended_radius * sin θ);
              PyFloat (y_center - min_extended_radius * cos θ)]) ]
  ++ map (fun xy => ("L"%string, [PyFloat (fst xy); PyFloat (snd xy)])) back
  ++ [ ("Z"%string, []) ].

End BendingMagnetVocabulary.

(** [ascending key l]: each element's key is at most the key of every
    later element. *)
Inductive ascending {A : Type} (key : A -> Z) : list A -> Prop :=
| ascending_nil : ascending key []
| ascending_cons a l :
    Forall (fun b => (key a <= key b)%Z) l -> ascending key l -> ascending key (a :: l).

(** [all_before l P Q]: in [l], every element satisfying [P] stands before
    every element satisfying [Q]. *)
Definition all_before {A : Type} (l : list A) (P Q : A -> Prop) : Prop :=
  forall i j a b,
    nth_error l i = Some a -> nth_error l j = Some b -> P a -> Q b -> (i < j)%nat.

Definition is_body {F : Type} (path : Path F) : Prop :=
  (klass path = "magnet" \/ klass path = "plane")%string.

Definition is_trace {F : Type} (path : Path F) : Prop :=
  (klass path = "central-ray" \/ klass path = "guide")%string.

(* ---------------------------------------------------------------- *)
(** *** Sample runs on the rationals *)

(** A bending magnet of radius 1 traversed over an arc of length 1. *)
Abbreviation demo_magnet :=
  (draw_bending_magnet 0 0 0 1 (14011 # 299800) (1 # 2) (3 # 2) (1 # 10)
     [1 # 2; 0; 0] [1 # 2; 0; 0])%Q.

Definition demo_magnet_paths : list (Path Q) :=
  Eval vm_compute in graphic_after demo_magnet [].

Definition demo_geometry : Q * Q * Q * Q * list (command Q) :=
  Eval vm_compute in
    match bending_magnet_block 0 0 0 1 (14011 # 299800) (1 # 2) (3 # 2) (1 # 10)
            [1 # 2; 0; 0] [1 # 2; 0; 0] with
    | Ok geometry => geometry
    | Raise _ => (0, 0, 0, 0, [])
    end.

(** The central reference arc of the sample magnet and the operands of
    its arc command. *)
Definition demo_central_arc : Path Q :=
  Eval vm_compute in last demo_magnet_paths (mkPath "" [] 0).

Definition demo_arc_args : list (pynum Q) :=
  Eval vm_compute in snd (last (commands demo_central_arc) (""%string, [])).

(** The iron block of the sample magnet. *)
Definition demo_block_path : Path Q :=
  Eval vm_compute in hd (mkPath "" [] 0) demo_magnet_paths.


(* ---------------------------------------------------------------- *)
(** *** The shape function *)

(** The value of one sample, given the anchors [(y0, m)] at the two
    breakpoints: the three branches of the [where]. *)
Definition shape_at {F : Type} `{FloatOps F} (coefficients : list F)
    (lower_breakpoint upper_breakpoint : F) (lower upper : F * F) (x : F) : F :=
  (if x <? lower_breakpoint then snd lower * (x - lower_breakpoint) + fst lower
   else if x <? upper_breakpoint then y_middle_at coefficients x
   else snd upper * (x - upper_breakpoint) + fst upper)%py.

(* ---------------------------------------------------------------- *)
(** *** Normal termination *)

(** [returns m graphic Q]: if [m], started on [graphic], returns normally,
    the list it leaves and the value it returns satisfy [Q]. *)
Definition returns {F A : Type} (m : Draw F A) (graphic : list (Path F))
    (Q : list (Path F) -> A -> Prop) : Prop :=
  forall graphic' a, m graphic = (graphic', Ok a) -> Q graphic' a.

(** The keys [draw_magnets] looks up, in the order of the look-ups. *)
Definition required_keys : list string :=
  [ "foil_width"; "p_drift_pre_aperture"; "aperture_width"; "p_m5_length";
    "p_m5_radius"; "p_drift_pre_bend"; "p_dipole_length"; "p_dipole_field";
    "dipole_min_bend_radius"; "dipole_max_bend_radius"; "dipole_gap_height";
    "p_shape_in_1"; "p_shape_in_2"; "p_shape_in_3";
    "p_shape_out_1"; "p_shape_out_2"; "p_shape_out_3";
    "p_drift_post_bend"; "hodoscope_left"; "hodoscope_right" ]%string.

(** A small beamline around the sample magnet. *)
Definition demo_parameters : dict Q :=
  [ ("foil_width", 1 # 10); ("p_drift_pre_aperture", 1 # 2);
    ("aperture_width", 1 # 10); ("p_m5_length", 1 # 4); ("p_m5_radius", 1 # 10);
    ("p_drift_pre_bend", 1 # 4); ("p_dipole_length", 1);
    ("p_dipole_field", 14011 # 299800);
    ("dipole_min_bend_radius", 1 # 2); ("dipole_max_bend_radius", 3 # 2);
    ("dipole_gap_height", 1 # 10);
    ("p_shape_in_1", 1 # 2); ("p_shape_in_2", 0); ("p_shape_in_3", 0);
    ("p_shape_out_1", 1 # 2); ("p_shape_out_2", 0); ("p_shape_out_3", 0);
    ("p_drift_post_bend", 1 # 2); ("hodoscope_left", 1 # 5);
    ("hodoscope_right", 2 # 5) ]%string.

(* ---------------------------------------------------------------- *)
(** *** Text *)

(** Every character of [s] is in the class [p]. *)
Fixpoint string_forall (p : ascii -> bool) (s : string) : bool :=
  match s with
  | EmptyString => true
  | String c s' => p c && string_forall p s'
  end.


Definition is_line_feed (c : ascii) : bool := (nat_of_ascii c =? 10)%nat.

(** The text ends with a carriage return. *)
Fixpoint ends_with_cr (s : string) : bool :=
  match s with
  | EmptyString => false
  | String c EmptyString => (nat_of_ascii c =? 13)%nat
  | String _ s' => ends_with_cr s'
  end.

(** An operand [format_number] accepts: an [int], or a finite float with
    a fractional part. *)
Definition writable {F : Type} `{FloatOps F} (v : pynum F) : Prop :=
  match v with
  | PyInt _ => True
  | PyFloat f =>
      fis_nan f = false /\ fis_inf f = false /\ feqb f (of_Z (ftrunc f)) = false
  end.

(** An infinite float among the operands of the commands of the paths. *)
Definition has_infinite_operand {F : Type} `{FloatOps F} (paths : list (Path F)) : Prop :=
  exists path c f,
    In path paths /\ In c (commands path) /\ In (PyFloat f) (snd c) /\ fis_inf f = true.

(* ================================================================== *)
(** * Properties *)

(** ** Reasoning about renderers *)

Section DrawLemmas.
Context {F : Type}.
Variable P : Path F -> Prop.

Lemma appends_only_dret (A : Type) (a : A) : appends_only P (dret a).
Proof.
  intros graphic. exists []. split; [|constructor].
  unfold graphic_after, dret. cbn. now rewrite app_nil_r.
Qed.

Lemma appends_only_lift (A : Type) (r : result A) : appends_only P (lift r).
Proof.
  intros graphic. exists []. split; [|constructor].
  unfold graphic_after, lift. cbn. now rewrite app_nil_r.
Qed.

Lemma appends_only_append (path : Path F) : P path -> appends_only P (append path).
Proof.
  intros HP graphic. exists [path]. split; [reflexivity|].
  constructor; [exact HP|constructor].
Qed.

Lemma appends_only_dbind (A B : Type) (m : Draw F A) (k : A -> Draw F B) :
  appends_only P m -> (forall a, appends_only P (k a)) -> appends_only P (dbind m k).
Proof.
  intros Hm Hk graphic.
  destruct (Hm graphic) as [new1 [E1 F1]].
  unfold graphic_after, dbind in *.
  destruct (m graphic) as [graphic' [a|e]]; cbn in E1; subst graphic'.
  - destruct (Hk a (graphic ++ new1)) as [new2 [E2 F2]].
    exists (new1 ++ new2). split.
    + unfold graphic_after in E2. rewrite E2. now rewrite app_assoc.
    + apply Forall_app. now split.
  - exists new1. now split.
Qed.

Lemma appends_only_dfor (A B : Type) (body : A -> B -> Draw F A) (items : list B) :
  (forall a b, In b items -> appends_only P (body a b)) ->
  forall acc, appends_only P (dfor body items acc).
Proof.
  induction items as [|b rest IH]; intros Hbody acc; cbn [dfor].
  - apply appends_only_dret.
  - apply appends_only_dbind.
    + apply Hbody. now left.
    + intros a. apply IH. intros a' b' Hin. apply Hbody. now right.
Qed.

End DrawLemmas.

Ltac draw_steps :=
  repeat first
    [ apply appends_only_dret
    | apply appends_only_lift
    | apply appends_only_append
    | apply appends_only_dbind; [|intros ?]
    | match goal with
      | |- appends_only _ (match ?p with (_, _) => _ end) => destruct p
      | |- appends_only _ (let '(_, _) := ?p in _) => destruct p
      end ].

Section RendererLemmas.
Context {F : Type} `{FloatOps F} `{ElemOps F}.
Variable P : Path F -> Prop.

Lemma draw_plane_appends x y θ left right :
  (forall line, P (mkPath "plane" line 1)) ->
  appends_only P (draw_plane x y θ left right).
Proof. intros HP. unfold draw_plane. draw_steps. apply HP. Qed.

Lemma draw_drift_length_appends x y θ length :
  (forall line, P (mkPath "central-ray" line 2)) ->
  appends_only P (draw_drift_length x y θ length).
Proof. intros HP. unfold draw_drift_length. draw_steps. apply HP. Qed.

Lemma draw_multipole_magnet_appends x y θ length radius :
  (forall block, P (mkPath "magnet" block 1)) ->
  (forall line, P (mkPath "central-ray" line 2)) ->
  appends_only P (draw_multipole_magnet x y θ length radius).
Proof.
  intros HP1 HP2. unfold draw_multipole_magnet. draw_steps; [apply HP1|apply HP2].
Qed.

End RendererLemmas.

Section BendingMagnetLemmas.
Context {F : Type} `{FloatOps F} `{ElemOps F}.
Local Open Scope py_scope.

(** The renderer either raises before it appends anything, or appends
    its four records and returns the exit state. *)
Lemma draw_bending_magnet_run x y θ length field min_bend_radius max_bend_radius
    gap_height in_shape_parameters out_shape_parameters graphic :
  draw_bending_magnet x y θ length field min_bend_radius max_bend_radius
    gap_height in_shape_parameters out_shape_parameters graphic
  = match bending_magnet_block x y θ length field min_bend_radius max_bend_radius
            gap_height in_shape_parameters out_shape_parameters with
    | Ok geometry =>
        (graphic ++ bending_magnet_paths θ min_bend_radius max_bend_radius geometry,
         Ok (bending_magnet_exit θ geometry))
    | Raise e => (graphic, Raise e)
    end.
Proof.
  unfold draw_bending_magnet, dbind at 1, lift.
  destruct (bending_magnet_block _ _ _ _ _ _ _ _ _ _)
    as [[[[[x_center y_center] central_bend_radius] bend_angle] block]|e];
    [|reflexivity].
  cbn. now rewrite <- !app_assoc.
Qed.

End BendingMagnetLemmas.

Section BendingMagnetFacts.
Context {F : Type} `{FloatOps F} `{ElemOps F}.
Local Open Scope py_scope.

Lemma block_outline_inv x_center y_center θ bend_angle
    min_extended_radius max_extended_radius x_back y_back x_front y_front block :
  block_outline x_center y_center θ bend_angle min_extended_radius
    max_extended_radius x_back y_back x_front y_front = Ok block ->
  exists x_back_last y_back_last x_front_last y_front_last,
    index_last x_back = Ok x_back_last /\ index_last y_back = Ok y_back_last /\
    index_last x_front = Ok x_front_last /\ index_last y_front = Ok y_front_last /\
    block =
      [ ("M"%string, [PyFloat x_back_last; PyFloat y_back_last]);
        ("A"%string, [PyFloat max_extended_radius; PyFloat max_extended_radius;
               PyInt 0; large_arc_flag bend_angle; PyInt 1;
               PyFloat x_front_last; PyFloat y_front_last]) ]
      ++ map (fun xy => ("L"%string, [PyFloat (fst xy); PyFloat (snd xy)]))
             (combine (rev_but_last x_front) (rev_but_last y_front))
      ++ [ ("L"%string, [PyFloat (x_center + min_extended_radius * sin (θ + bend_angle));
                  PyFloat (y_center - min_extended_radius * cos (θ + bend_angle))]);
           ("A"%string, [PyFloat min_extended_radius; PyFloat min_extended_radius;
                  PyInt 0; large_arc_flag bend_angle; PyInt 0;
                  PyFloat (x_center + min_extended_radius * sin θ);
                  PyFloat (y_center - min_extended_radius * cos θ)]) ]
      ++ map (fun xy => ("L"%string, [PyFloat (fst xy); PyFloat (snd xy)]))
             (combine x_back y_back)
      ++ [ ("Z"%string, []) ].
Proof.
  unfold block_outline. intros E.
  destruct (index_last x_back) as [xb|]; [|discriminate].
  destruct (index_last y_back) as [yb|]; [|discriminate].
  destruct (index_last x_front) as [xf|]; [|discriminate].
  destruct (index_last y_front) as [yf|]; [|discriminate].
  cbn [rbind] in E. injection E as <-.
  exists xb, yb, xf, yf. repeat split; reflexivity.
Qed.

Lemma line_to_not_arc (pts : list (F * F)) args :
  ~ In ("A"%string, args)
      (map (fun xy => ("L"%string, [PyFloat (fst xy); PyFloat (snd xy)])) pts).
Proof.
  intros Hin. apply in_map_iff in Hin. destruct Hin as [xy [E _]]. discriminate.
Qed.

Lemma block_outline_arc_flags x_center y_center θ bend_angle
    min_extended_radius max_extended_radius x_back y_back x_front y_front block :
  block_outline x_center y_center θ bend_angle min_extended_radius
    max_extended_radius x_back y_back x_front y_front = Ok block ->
  arc_flags_ok bend_angle (mkPath "magnet" block 1).
Proof.
  intros E args Hin. cbn [commands] in Hin.
  apply block_outline_inv in E.
  destruct E as (xb & yb & xf & yf & _ & _ & _ & _ & ->).
  repeat (apply in_app_or in Hin; destruct Hin as [Hin|Hin]);
    try (now apply line_to_not_arc in Hin);
    cbn [In] in Hin;
    repeat (destruct Hin as [Hin|Hin]; [inversion Hin; subst; reflexivity || discriminate|]);
    try contradiction.
Qed.

Lemma reference_arc_flags x_center y_center θ bend_angle radius klass :
  arc_flags_ok bend_angle
    (mkPath klass (reference_arc x_center y_center θ bend_angle radius) 2).
Proof.
  intros args Hin. cbn in Hin.
  destruct Hin as [Hin|[Hin|[]]]; inversion Hin; subst; reflexivity.
Qed.

(** What the first lines of the renderer fix: the bend radius and angle
    come from [bend_kinematics], the centre lies a radius off the entry
    point, across the heading. *)
Lemma bending_magnet_block_kinematics x y θ length field min_bend_radius
    max_bend_radius gap_height in_shape_parameters out_shape_parameters
    x_center y_center central_bend_radius bend_angle block :
  bending_magnet_block x y θ length field min_bend_radius max_bend_radius
    gap_height in_shape_parameters out_shape_parameters
  = Ok (x_center, y_center, central_bend_radius, bend_angle, block) ->
  exists central_momentum,
    bend_kinematics length field = Ok (central_momentum, central_bend_radius, bend_angle)
    /\ x_center = x - central_bend_radius * sin θ
    /\ y_center = y + central_bend_radius * cos θ
    /\ exists x_back y_back x_front y_front,
         block_outline x_center y_center θ bend_angle
           (min_bend_radius - of_Q 1.5 * gap_height)
           (max_bend_radius + of_Q 1.5 * gap_height)
           x_back y_back x_front y_front = Ok block.
Proof.
  unfold bending_magnet_block. intros E.
  destruct (bend_kinematics length field) as [[[p r] a]|]; [|discriminate].
  cbn [rbind] in E.
  destruct (evaluate_polynomial _ (of_Q 0 :: in_shape_parameters) _ _) as [ζ_back|];
    [|discriminate].
  cbn [rbind] in E.
  destruct (pole_face _ _ _ _ _ ζ_back _) as [x_back y_back].
  destruct (evaluate_polynomial _ (of_Q 0 :: out_shape_parameters) _ _) as [ζ|];
    [|discriminate].
  cbn [rbind] in E.
  destruct (pole_face _ _ _ _ _ (map fneg ζ) _) as [x_front y_front].
  destruct (block_outline _ _ _ _ _ _ _ _ _ _) as [b|] eqn:Eb; [|discriminate].
  cbn [rbind] in E. injection E as <- <- <- <- <-.
  exists p. repeat split.
  exists x_back, y_back, x_front, y_front. exact Eb.
Qed.

(** Every renderer appends and nothing else, and what the bending magnet
    appends satisfies whatever its four records satisfy. *)
Lemma draw_bending_magnet_appends (P : Path F -> Prop) x y θ length field
    min_bend_radius max_bend_radius gap_height
    in_shape_parameters out_shape_parameters :
  (forall geometry,
      bending_magnet_block x y θ length field min_bend_radius max_bend_radius
        gap_height in_shape_parameters out_shape_parameters = Ok geometry ->
      Forall P (bending_magnet_paths θ min_bend_radius max_bend_radius geometry)) ->
  appends_only P
    (draw_bending_magnet x y θ length field min_bend_radius max_bend_radius
       gap_height in_shape_parameters out_shape_parameters).
Proof.
  intros HP graphic. unfold graphic_after.
  rewrite draw_bending_magnet_run.
  destruct (bending_magnet_block _ _ _ _ _ _ _ _ _ _) as [geometry|e].
  - eexists. split; [reflexivity|]. now apply HP.
  - exists []. split; [cbn; now rewrite app_nil_r|constructor].
Qed.

End BendingMagnetFacts.

(* ================================================================== *)
(** ** The stable sort *)

(** The sort keeps every record, each as often as it occurs. *)
Lemma insert_by_perm (A : Type) (key : A -> Z) (a : A) (l : list A) :
  Permutation (insert_by key a l) (a :: l).
Proof.
  induction l as [|b l IH]; cbn [insert_by].
  - apply Permutation_refl.
  - destruct (key a <=? key b)%Z; [apply Permutation_refl|].
    eapply Permutation_trans; [apply perm_skip, IH|apply perm_swap].
Qed.

Lemma sorted_perm (A : Type) (key : A -> Z) (l : list A) :
  Permutation (sorted key l) l.
Proof.
  induction l as [|a l IH]; cbn; [constructor|].
  eapply Permutation_trans; [apply insert_by_perm|]. now apply perm_skip.
Qed.

Section Sorting.
Context {A : Type}.
Variable key : A -> Z.

Lemma insert_by_Forall (P : A -> Prop) a l :
  P a -> Forall P l -> Forall P (insert_by key a l).
Proof.
  intros Ha Hl. induction Hl as [|b l Hb Hl IH]; cbn [insert_by].
  - constructor; [exact Ha|constructor].
  - destruct (key a <=? key b)%Z.
    + constructor; [exact Ha|]. now constructor.
    + now constructor.
Qed.

Lemma sorted_Forall (P : A -> Prop) l : Forall P l -> Forall P (sorted key l).
Proof.
  intros Hl. induction Hl as [|a l Ha Hl IH]; cbn.
  - constructor.
  - now apply insert_by_Forall.
Qed.

Lemma insert_by_ascending a l : ascending key l -> ascending key (insert_by key a l).
Proof.
  intros Hl. induction Hl as [|b l Hb Hl IH]; cbn [insert_by].
  - constructor; constructor.
  - destruct (key a <=? key b)%Z eqn:E.
    + apply Z.leb_le in E. constructor.
      * constructor; [exact E|].
        eapply Forall_impl; [|exact Hb]. cbn. intros c Hc. lia.
      * now constructor.
    + apply Z.leb_gt in E. constructor; [|exact IH].
      apply insert_by_Forall; [lia|exact Hb].
Qed.

Lemma sorted_ascending l : ascending key (sorted key l).
Proof.
  induction l as [|a l IH]; cbn.
  - constructor.
  - now apply insert_by_ascending.
Qed.

Lemma ascending_nth l :
  ascending key l ->
  forall i j a b, (i < j)%nat ->
    nth_error l i = Some a -> nth_error l j = Some b -> (key a <= key b)%Z.
Proof.
  induction 1 as [|c l Hc Hl IH]; intros i j a b Hij Hi Hj.
  - destruct i; discriminate.
  - destruct j as [|j]; [lia|]. cbn in Hj.
    destruct i as [|i]; cbn in Hi.
    + injection Hi as ->.
      rewrite Forall_forall in Hc. apply Hc. eapply nth_error_In; eassumption.
    + apply (IH i j); [lia|assumption|assumption].
Qed.



End Sorting.

(* ================================================================== *)
(** ** The renderers and the path list *)

Section Frame.
Context {F : Type} `{FloatOps F} `{ElemOps F}.

Lemma stacking_ok_body commands : stacking_ok (@mkPath F "magnet" commands 1).
Proof. split; cbn; intros [E|E]; reflexivity || discriminate. Qed.

Lemma stacking_ok_plane commands : stacking_ok (@mkPath F "plane" commands 1).
Proof. split; cbn; intros [E|E]; reflexivity || discriminate. Qed.

Lemma stacking_ok_ray commands : stacking_ok (@mkPath F "central-ray" commands 2).
Proof. split; cbn; intros [E|E]; reflexivity || discriminate. Qed.

Lemma stacking_ok_guide commands : stacking_ok (@mkPath F "guide" commands 2).
Proof. split; cbn; intros [E|E]; reflexivity || discriminate. Qed.

Lemma bending_magnet_paths_stacking θ min_bend_radius max_bend_radius
    (geometry : F * F * F * F * list (command F)) :
  Forall stacking_ok (bending_magnet_paths θ min_bend_radius max_bend_radius geometry).
Proof.
  destruct geometry as [[[[x_center y_center] r] a] block].
  unfold bending_magnet_paths.
  repeat constructor; cbn; intros [E|E]; reflexivity || discriminate.
Qed.

(** C8. Each of the four element renderers (plane, drift, multipole
    magnet, bending magnet), run on any path list and ray state, leaves
    the list it was given as a prefix of the list afterwards: the records
    present before the call are all there, unchanged and in the same
    order, and the call only adds records at the end.  This holds also
    when the renderer raises. *)
Theorem renderers_only_append (graphic : list (Path F)) :
  (forall x y θ left right,
      exists new, graphic_after (draw_plane x y θ left right) graphic = graphic ++ new) /\
  (forall x y θ length,
      exists new, graphic_after (draw_drift_length x y θ length) graphic = graphic ++ new) /\
  (forall x y θ length radius,
      exists new,
        graphic_after (draw_multipole_magnet x y θ length radius) graphic = graphic ++ new) /\
  (forall x y θ length field min_bend_radius max_bend_radius gap_height
          in_shape_parameters out_shape_parameters,
      exists new,
        graphic_after
          (draw_bending_magnet x y θ length field min_bend_radius max_bend_radius
             gap_height in_shape_parameters out_shape_parameters) graphic
        = graphic ++ new).
Proof.
  pose (anything := fun _ : Path F => True).
  assert (drop : forall A (m : Draw F A),
             appends_only anything m ->
             exists new, graphic_after m graphic = graphic ++ new).
  { intros A m Hm. destruct (Hm graphic) as [new [E _]]. now exists new. }
  repeat split; intros; apply drop.
  - apply draw_plane_appends. now intros.
  - apply draw_drift_length_appends. now intros.
  - apply draw_multipole_magnet_appends; now intros.
  - apply draw_bending_magnet_appends. intros geometry _.
    apply Forall_forall. now intros.
Qed.

(** Sorting by stacking order puts the records of order 1 before those
    of order 2. *)
Lemma sorted_bodies_first (paths : list (Path F)) :
  Forall stacking_ok paths ->
  all_before (sorted (@zorder F) paths) is_body is_trace.
Proof.
  intros Hok i j a b Hi Hj Ha Hb.
  apply (sorted_Forall (@zorder F)) in Hok.
  rewrite Forall_forall in Hok.
  assert (Za : zorder a = 1%Z).
  { apply (Hok a); [eapply nth_error_In; eassumption|exact Ha]. }
  assert (Zb : zorder b = 2%Z).
  { apply (Hok b); [eapply nth_error_In; eassumption|exact Hb]. }
  destruct (Nat.lt_trichotomy i j) as [Hlt|[Heq|Hgt]]; [exact Hlt| |].
  - subst j. rewrite Hi in Hj. injection Hj as ->. lia.
  - pose proof (ascending_nth (sorted_ascending (@zorder F) paths) Hgt Hj Hi) as Hle.
    lia.
Qed.


End Frame.


(* ================================================================== *)
(** ** The bending magnet: arcs and exit state *)

Section BendingMagnetArcs.
Context {F : Type} `{FloatOps F} `{ElemOps F}.
Local Open Scope py_scope.

Lemma bending_magnet_paths_arc_flags x y θ length field min_bend_radius
    max_bend_radius gap_height in_shape_parameters out_shape_parameters
    x_center y_center central_bend_radius bend_angle block :
  bending_magnet_block x y θ length field min_bend_radius max_bend_radius
    gap_height in_shape_parameters out_shape_parameters
  = Ok (x_center, y_center, central_bend_radius, bend_angle, block) ->
  Forall (arc_flags_ok bend_angle)
    (bending_magnet_paths θ min_bend_radius max_bend_radius
       (x_center, y_center, central_bend_radius, bend_angle, block)).
Proof.
  intros E. apply bending_magnet_block_kinematics in E.
  destruct E as (p & _ & _ & _ & xb & yb & xf & yf & Eb).
  unfold bending_magnet_paths.
  repeat constructor; try apply reference_arc_flags.
  eapply block_outline_arc_flags. exact Eb.
Qed.

(** C3. In every arc command the bending-magnet renderer appends (the
    two arcs of the iron-block outline and the three reference arcs) the
    large-arc flag, operand 3, is 0 when bend_angle <= pi and 1 when
    bend_angle > pi.  The comparison is the one of the number type, of
    which only [a <= b -> not (b < a)] is assumed. *)
Theorem bending_magnet_large_arc_flag
    (le_not_gt : forall a b : F, (a <=? b) = true -> (b <? a) = false)
    x y θ length field min_bend_radius max_bend_radius gap_height
    in_shape_parameters out_shape_parameters
    central_momentum central_bend_radius bend_angle
    (graphic new : list (Path F)) path args :
  bend_kinematics length field = Ok (central_momentum, central_bend_radius, bend_angle) ->
  graphic_after
    (draw_bending_magnet x y θ length field min_bend_radius max_bend_radius
       gap_height in_shape_parameters out_shape_parameters) graphic
  = graphic ++ new ->
  In path new ->
  In ("A"%string, args) (commands path) ->
  ((bend_angle <=? pi) = true -> nth_error args 3 = Some (PyInt 0)) /\
  ((pi <? bend_angle) = true -> nth_error args 3 = Some (PyInt 1)).
Proof.
  intros Ek Eg Hpath Harc.
  unfold graphic_after in Eg. rewrite draw_bending_magnet_run in Eg.
  destruct (bending_magnet_block _ _ _ _ _ _ _ _ _ _)
    as [[[[[x_center y_center] r] a] block]|e] eqn:Eb; cbn [fst] in Eg.
  - apply app_inv_head in Eg. subst new.
    pose proof (bending_magnet_paths_arc_flags _ _ _ _ _ _ _ _ _ _ Eb) as Hflags.
    apply bending_magnet_block_kinematics in Eb.
    destruct Eb as (p & Ek' & _). rewrite Ek in Ek'. injection Ek' as _ _ <-.
    rewrite Forall_forall in Hflags.
    rewrite (Hflags path Hpath args Harc). unfold large_arc_flag.
    split; intros Hcmp.
    + now rewrite (le_not_gt _ _ Hcmp).
    + now rewrite Hcmp.
  - rewrite <- (app_nil_r graphic) in Eg at 1.
    apply app_inv_head in Eg. subst new. contradiction.
Qed.

(** C5. Whenever the geometry of the magnet can be computed (the
    parameters are valid: no division by zero, no empty pole face), the
    renderer returns the heading θ + bend_angle and the position
    (x_center + central_bend_radius sin(θ + bend_angle),
     y_center - central_bend_radius cos(θ + bend_angle)),
    where the radius and angle are those of [bend_kinematics] and the
    centre is (x - central_bend_radius sin θ, y + central_bend_radius cos θ);
    this position is the end point of the central-radius reference arc,
    the last record appended. *)
Theorem bending_magnet_exit_state
    x y θ length field min_bend_radius max_bend_radius gap_height
    in_shape_parameters out_shape_parameters geometry (graphic : list (Path F)) :
  bending_magnet_block x y θ length field min_bend_radius max_bend_radius
    gap_height in_shape_parameters out_shape_parameters = Ok geometry ->
  exists central_momentum central_bend_radius bend_angle,
    bend_kinematics length field = Ok (central_momentum, central_bend_radius, bend_angle) /\
    let x_center := x - central_bend_radius * sin θ in
    let y_center := y + central_bend_radius * cos θ in
    let x' := x_center + central_bend_radius * sin (θ + bend_angle) in
    let y' := y_center - central_bend_radius * cos (θ + bend_angle) in
    let central_arc :=
      reference_arc x_center y_center θ bend_angle central_bend_radius in
    returned
      (draw_bending_magnet x y θ length field min_bend_radius max_bend_radius
         gap_height in_shape_parameters out_shape_parameters) graphic
    = Ok (x', y', θ + bend_angle) /\
    last (graphic_after
            (draw_bending_magnet x y θ length field min_bend_radius max_bend_radius
               gap_height in_shape_parameters out_shape_parameters) graphic)
         (mkPath "" [] 0)
    = mkPath "central-ray" central_arc 2 /\
    end_of_arc central_arc = Ok (x', y').
Proof.
  intros Eb.
  destruct geometry as [[[[x_center y_center] r] a] block].
  pose proof (bending_magnet_block_kinematics _ _ _ _ _ _ _ _ _ _ Eb)
    as (p & Ek & Ex & Ey & _).
  exists p, r, a. split; [exact Ek|].
  unfold returned, graphic_after. rewrite draw_bending_magnet_run, Eb.
  subst x_center y_center. cbn [fst snd bending_magnet_exit bending_magnet_paths].
  repeat split.
  match goal with
  | |- last (?g ++ [?a; ?b; ?c; ?d]) _ = _ =>
      change (g ++ [a; b; c; d]) with (g ++ [a; b; c] ++ [d])
  end.
  rewrite app_assoc. apply last_last.
Qed.

End BendingMagnetArcs.

(** *** The sample magnet *)

Lemma Q_le_not_gt (a b : Q) : fleb a b = true -> fltb b a = false.
Proof. cbn. intros ->. reflexivity. Qed.

Lemma demo_magnet_block :
  bending_magnet_block 0 0 0 1 (14011 # 299800) (1 # 2) (3 # 2) (1 # 10)
    [1 # 2; 0; 0] [1 # 2; 0; 0]
  = Ok demo_geometry.
Proof. vm_compute. reflexivity. Qed.

Lemma demo_magnet_after : graphic_after demo_magnet [] = [] ++ demo_magnet_paths.
Proof.
  unfold graphic_after.
  rewrite draw_bending_magnet_run, demo_magnet_block. vm_compute. reflexivity.
Qed.

Lemma demo_magnet_kinematics :
  exists central_momentum,
    bend_kinematics 1 (14011 # 299800) = Ok (central_momentum, 1, 1).
Proof. eexists. vm_compute. reflexivity. Qed.

(** On the sample magnet the bend angle is 1 <= pi, and the large-arc
    flag of the central arc is 0. *)
Lemma bending_magnet_large_arc_flag_witness :
  In demo_central_arc demo_magnet_paths /\
  In ("A"%string, demo_arc_args) (commands demo_central_arc) /\
  fleb 1 (@pi Q _) = true /\
  nth_error demo_arc_args 3 = Some (PyInt 0).
Proof.
  assert (Hpath : In demo_central_arc demo_magnet_paths).
  { right; right; right; left. reflexivity. }
  assert (Harc : In ("A"%string, demo_arc_args) (commands demo_central_arc)).
  { right; left. reflexivity. }
  assert (Hle : fleb 1 (@pi Q _) = true) by (vm_compute; reflexivity).
  destruct demo_magnet_kinematics as [central_momentum Ek].
  split; [exact Hpath|]. split; [exact Harc|]. split; [exact Hle|].
  exact (proj1 (@bending_magnet_large_arc_flag Q _ _ Q_le_not_gt
                  0 0 0 1 (14011 # 299800) (1 # 2) (3 # 2) (1 # 10)
                  [1 # 2; 0; 0] [1 # 2; 0; 0] central_momentum 1 1
                  [] demo_magnet_paths demo_central_arc demo_arc_args
                  Ek demo_magnet_after Hpath Harc) Hle).
Defined.

(** The sample magnet turns the ray by one radian around (0, 1). *)
Lemma bending_magnet_exit_state_witness :
  exists central_bend_radius bend_angle : Q,
    returned demo_magnet []
    = Ok (fadd (fsub 0 (fmul central_bend_radius (sin 0)))
               (fmul central_bend_radius (sin (fadd 0 bend_angle))),
          fsub (fadd 0 (fmul central_bend_radius (cos 0)))
               (fmul central_bend_radius (cos (fadd 0 bend_angle))),
          fadd 0 bend_angle).
Proof.
  destruct (@bending_magnet_exit_state Q _ _ 0 0 0 1 (14011 # 299800) (1 # 2) (3 # 2)
              (1 # 10) [1 # 2; 0; 0] [1 # 2; 0; 0] demo_geometry [] demo_magnet_block)
    as (p & r & a & _ & Hret & _).
  exists r, a. exact Hret.
Defined.

(* ================================================================== *)
(** ** The polynomial shape evaluator *)

(** C1, as the program behaves. For the coefficients [0, 2, 0] and the
    breakpoints -1 and 1 the samples -1, 0 and 1 evaluate to -2, 0 and 2,
    and the sample -2, below the lower breakpoint, evaluates to -4: the
    tangent at -1 has slope 2 and passes through (-1, -2). *)
Theorem evaluate_polynomial_linear_samples :
  evaluate_polynomial [-1; 0; 1]%Q [0; 2; 0]%Q (-1)%Q 1%Q = Ok [-2; 0; 2]%Q /\
  evaluate_polynomial [-2]%Q [0; 2; 0]%Q (-1)%Q 1%Q = Ok [-4]%Q.
Proof. split; vm_compute; reflexivity. Qed.

(** C1 as stated, with the value -2 at the sample -2, does not hold. *)
Lemma evaluate_polynomial_linear_samples_counterexample :
  ~ (evaluate_polynomial [-1; 0; 1]%Q [0; 2; 0]%Q (-1)%Q 1%Q = Ok [-2; 0; 2]%Q /\
     evaluate_polynomial [-2]%Q [0; 2; 0]%Q (-1)%Q 1%Q = Ok [-2]%Q).
Proof. intros [_ E]. vm_compute in E. discriminate E. Qed.

Section EvaluatorFacts.
Context {F : Type} `{FloatOps F}.
Local Open Scope py_scope.

(** The two ways a power raises. *)
Lemma py_pow_raises (a : F) (n : Z) e :
  py_pow a n = Raise e ->
  (e = ZeroDivisionError /\ (a ==? of_Q 0) = true) \/ e = OverflowError.
Proof.
  unfold py_pow.
  destruct (a ==? of_Q 0); cbn [andb].
  - destruct (n <? 0)%Z; [intros [= <-]; now left|].
    destruct (_ && _); [intros [= <-]; now right|discriminate].
  - destruct (_ && _); [intros [= <-]; now right|discriminate].
Qed.

Lemma py_pow_zero_exponent (a : F) : py_pow a 0 = Ok (a ** 0).
Proof.
  unfold py_pow. change (0 <? 0)%Z with false. change (0 =? 0)%Z with true.
  now rewrite andb_false_r.
Qed.

Lemma rfold_tangent_raises breakpoint items acc e :
  rfold (tangent_step breakpoint) items acc = Raise e ->
  (e = ZeroDivisionError /\ (breakpoint ==? of_Q 0) = true) \/ e = OverflowError.
Proof.
  revert acc. induction items as [|[i c] rest IH]; intros [y0 m]; cbn [rfold].
  - discriminate.
  - unfold tangent_step at 1.
    destruct (py_pow breakpoint i) as [p|e1] eqn:E1; cbn [rbind].
    + destruct (py_pow breakpoint (i - 1)) as [q|e2] eqn:E2; cbn [rbind].
      * apply IH.
      * intros [= <-]. exact (py_pow_raises _ _ E2).
    + intros [= <-]. exact (py_pow_raises _ _ E1).
Qed.

(** A breakpoint equal to zero makes the slope computation raise, as soon
    as there is a coefficient. *)
Lemma tangent_at_zero_breakpoint c coefficients breakpoint :
  (breakpoint ==? of_Q 0) = true ->
  tangent_at (c :: coefficients) breakpoint = Raise ZeroDivisionError.
Proof.
  intros E. unfold tangent_at, enumerate. cbn [List.length seq map combine rfold].
  unfold tangent_step at 1. cbn [Z.of_nat]. rewrite py_pow_zero_exponent.
  cbn [rbind]. unfold py_pow. rewrite E. reflexivity.
Qed.

(** With a zero upper breakpoint the evaluator does not return: the
    upper anchor raises ZeroDivisionError, unless the lower anchor has
    raised already. *)
Lemma evaluate_polynomial_zero_upper x c coefficients lower_breakpoint upper_breakpoint :
  (upper_breakpoint ==? of_Q 0) = true ->
  exists e,
    evaluate_polynomial x (c :: coefficients) lower_breakpoint upper_breakpoint = Raise e /\
    (e = ZeroDivisionError \/ e = OverflowError).
Proof.
  intros E. unfold evaluate_polynomial.
  destruct (tangent_at (c :: coefficients) lower_breakpoint) as [[y0 m]|e] eqn:El.
  - cbn [rbind]. rewrite (tangent_at_zero_breakpoint _ _ _ E).
    exists ZeroDivisionError. split; [reflexivity|now left].
  - cbn [rbind]. exists e. split; [reflexivity|].
    apply rfold_tangent_raises in El. destruct El as [ [-> _] | -> ]; [now left|now right].
Qed.

End EvaluatorFacts.

(** C6 at a zero breakpoint. With the upper breakpoint 0.0 the evaluator
    does not return the polynomial value at the sample 0.0: the slope term
    [c*i*0.0**(i - 1)] for [i = 0] raises ZeroDivisionError. *)
Theorem evaluate_polynomial_zero_upper_breakpoint :
  evaluate_polynomial [0]%Q [0; 2; 0]%Q (-1)%Q 0%Q = Raise ZeroDivisionError.
Proof. vm_compute. reflexivity. Qed.

(* ================================================================== *)
(** ** The serializer *)

Section SerializerFacts.
Context {F : Type} `{FloatOps F}.
Local Open Scope py_scope.

Lemma format_number_int z : format_number (@PyInt F z) = Ok (string_of_Z z).
Proof. reflexivity. Qed.

(** A finite float with an exact integer value reaches [f"{x:d}"], which
    refuses a float. *)
Lemma format_number_integral_float f :
  fis_nan f = false -> fis_inf f = false ->
  (f ==? of_Z (ftrunc f)) = true -> format_number (PyFloat f) = Raise ValueError.
Proof. intros En Ei E. unfold format_number. now rewrite En, Ei, E. Qed.

Lemma format_number_fractional_float f :
  fis_nan f = false -> fis_inf f = false ->
  (f ==? of_Z (ftrunc f)) = false -> format_number (PyFloat f) = Ok (fformat6 f).
Proof. intros En Ei E. unfold format_number. now rewrite En, Ei, E. Qed.

Lemma format_number_nan f : fis_nan f = true -> format_number (PyFloat f) = Raise ValueError.
Proof. intros En. unfold format_number. now rewrite En. Qed.

Lemma format_number_infinity f :
  fis_nan f = false -> fis_inf f = true -> format_number (PyFloat f) = Raise OverflowError.
Proof. intros En Ei. unfold format_number. now rewrite En, Ei. Qed.

End SerializerFacts.

(** C2 on floats with an exact integer value. [format_number] raises
    ValueError on 3.0 and on 0.0, and so does [write_SVG] on the multipole
    magnet of length 3 and radius 1 drawn from (0, 0) with heading 0, whose
    corners are (0,-1), (0,1), (3,1), (3,-1).  Integers and floats with a
    fractional part are formatted as the specification says. *)
Theorem format_number_exact_integer_float :
  format_number (PyFloat 3%Q) = Raise ValueError /\
  format_number (PyFloat 0%Q) = Raise ValueError /\
  write_SVG "picture.svg" (graphic_after (draw_multipole_magnet 0 0 0 3 1)%Q [])
  = Raise ValueError /\
  format_number (@PyInt Q 3) = Ok "3"%string /\
  format_number (PyFloat 1.5%Q) = Ok "1.500000"%string.
Proof. repeat split; vm_compute; reflexivity. Qed.

(* ================================================================== *)
(** ** The parameter parser *)

Example parse_parameters_spec_example :
  parse_parameters
    ("foo := 1.5;" ++ newline ++ "# comment" ++ newline ++ "bar:=-2.0e3;")%string
  = Ok [("foo"%string, 3 # 2); ("bar"%string, -2000)]%Q.
Proof. vm_compute. reflexivity. Qed.

(** C9. The lines "x := 1.2.3;" and "x := e;" are accepted by the pattern,
    with the value texts "1.2.3" and "e"; neither text is a numeric
    literal, and the parser raises ValueError on them, for every number
    type, instead of skipping the line or storing an entry. *)
Theorem parse_parameters_malformed_literal :
  line_match "x := 1.2.3;" = Some ("x", "1.2.3")%string /\
  float_of_literal "1.2.3" = Raise ValueError /\
  line_match "x := e;" = Some ("x", "e")%string /\
  float_of_literal "e" = Raise ValueError /\
  forall (F : Type) (ops : FloatOps F),
    @parse_parameters F ops "x := 1.2.3;" = Raise ValueError /\
    @parse_parameters F ops "x := e;" = Raise ValueError.
Proof. repeat split; reflexivity. Qed.

(* ================================================================== *)
(** ** Kinematics of the reference particle *)

(** Unfold the operations of the number interface on the rationals. *)
Ltac q_ops :=
  cbv [of_Z fadd fsub fmul fdiv fneg fpow of_Q feqb fltb fleb fis_nan fis_inf
       Q_FloatOps] in *.

Lemma Q_py_div_nonzero (a b : Q) :
  ~ b == 0 -> py_div a b = Ok (Qred (a / b)).
Proof.
  intros Hb. unfold py_div. q_ops.
  destruct (Qeq_bool b (Qred 0)) eqn:E; [|reflexivity].
  apply Qeq_bool_iff in E. rewrite Qred_correct in E. contradiction.
Qed.

(** In exact arithmetic a positive field strength and a positive length
    give a momentum, a positive radius and an angle. *)
Lemma bend_kinematics_exact_arithmetic (length field : Q) :
  0 < field -> 0 < length ->
  exists central_momentum central_bend_radius bend_angle,
    bend_kinematics length field = Ok (central_momentum, central_bend_radius, bend_angle) /\
    central_momentum == (0.5110 + 13.5) * 1.602e-13 / 2.998e8 /\
    central_bend_radius == central_momentum / (1.602e-19 * field) /\
    bend_angle == length / central_bend_radius.
Proof.
  intros Hfield Hlength.
  unfold bend_kinematics, CENTRAL_ENERGY.
  rewrite Q_py_div_nonzero by (intros E; vm_compute in E; discriminate E).
  cbn [rbind].
  set (m := Qred (_ / _)).
  assert (Hm : m == (0.5110 + 13.5) * 1.602e-13 / 2.998e8).
  { subst m. q_ops. rewrite !Qred_correct. apply Qeq_refl. }
  assert (Hmpos : 0 < m) by (rewrite Hm; vm_compute; reflexivity).
  assert (Hden : 0 < 1.602e-19 * field).
  { apply Qmult_lt_0_compat; [vm_compute; reflexivity|exact Hfield]. }
  rewrite Q_py_div_nonzero.
  2:{ q_ops. rewrite !Qred_correct. intros E. rewrite E in Hden.
      apply (Qlt_irrefl 0 Hden). }
  cbn [rbind].
  set (r := Qred (m / _)).
  assert (Hr : r == m / (1.602e-19 * field)).
  { subst r. q_ops. rewrite !Qred_correct. apply Qeq_refl. }
  assert (Hrpos : 0 < r).
  { rewrite Hr. apply Qlt_shift_div_l; [exact Hden|]. now rewrite Qmult_0_l. }
  rewrite Q_py_div_nonzero.
  2:{ intros E. rewrite E in Hrpos. apply (Qlt_irrefl 0 Hrpos). }
  cbn [rbind].
  exists m, r, (Qred (length / r)).
  split; [reflexivity|]. split; [exact Hm|]. split; [exact Hr|].
  apply Qred_correct.
Qed.

Section Kinematics.
Context {F : Type} `{FloatOps F}.
Local Open Scope py_scope.

(** C4, as the program behaves.  For every field strength and length the
    kinematics of the bending-magnet renderer compute, in the arithmetic
    of the number type,
    momentum = (0.5110 + 13.5) * 1.602e-13 / 2.998e8,
    central bend radius = momentum / (1.602e-19 * field) and
    bend angle = length / central bend radius,
    provided none of the three divisors compares equal to zero; if one
    does, the renderer raises ZeroDivisionError. *)
Theorem bend_kinematics_float_formulas (length field : F) :
  let central_momentum :=
    fdiv ((of_Q 0.5110 + of_Q 13.5) * of_Q 1.602e-13) (of_Q 2.998e8) in
  let central_bend_radius := fdiv central_momentum (of_Q 1.602e-19 * field) in
  let bend_angle := fdiv length central_bend_radius in
  bend_kinematics length field
  = if (of_Q 2.998e8 ==? of_Q 0)
       || (of_Q 1.602e-19 * field ==? of_Q 0)
       || (central_bend_radius ==? of_Q 0)
    then Raise ZeroDivisionError
    else Ok (central_momentum, central_bend_radius, bend_angle).
Proof.
  cbv zeta. unfold bend_kinematics, CENTRAL_ENERGY, py_div.
  destruct (of_Q 2.998e8 ==? of_Q 0); cbn [rbind orb]; [reflexivity|].
  destruct (of_Q 1.602e-19 * field ==? of_Q 0); cbn [rbind orb]; [reflexivity|].
  destruct (fdiv _ (of_Q 1.602e-19 * field) ==? of_Q 0); reflexivity.
Qed.

End Kinematics.

(** C4 as stated does not hold of binary64 floats.  The field strength
    1e-310 is positive, and so is the length 1, but the product
    [1.602e-19*field] underflows to 0.0 and the renderer raises
    ZeroDivisionError instead of computing a radius. *)
Lemma bend_kinematics_positive_field_counterexample :
  let field : B64.float := of_Q 1e-310 in
  let length : B64.float := of_Q 1 in
  fltb (of_Q 0) field = true /\
  fltb (of_Q 0) length = true /\
  feqb (fmul (of_Q 1.602e-19) field) (of_Q 0) = true /\
  bend_kinematics length field = Raise ZeroDivisionError.
Proof. cbv zeta. repeat split; vm_compute; reflexivity. Qed.

(** The dipole of the built-in parameter block on binary64 floats: its
    field 0.3201551 and length 0.1982885 give the radius 0.14597... of the
    parameter [dipole_central_bend_radius]. *)
Example bend_kinematics_dipole :
  @bend_kinematics B64.float _ (of_Q 0.1982885) (of_Q 0.3201551)
  = Ok (of_Q 7.486865243495663e-21, of_Q 0.14597452815767475, of_Q 1.3583773998284014).
Proof. vm_compute. reflexivity. Qed.

(* ================================================================== *)
(** ** The pole faces *)

Section ArrayFacts.
Context {A B : Type}.

Lemma compress_combine (mask : list bool) (a : list A) (b : list B) :
  combine (compress mask a) (compress mask b) = compress mask (combine a b).
Proof.
  revert a b. induction mask as [|m mask IH]; intros [|x a] [|y b]; cbn;
    try reflexivity; try (now destruct m; destruct (compress mask _)).
  destruct m; cbn; now rewrite IH.
Qed.

Lemma compress_length (mask : list bool) (a : list A) (b : list B) :
  List.length a = List.length b ->
  List.length (compress mask a) = List.length (compress mask b).
Proof.
  revert a b. induction mask as [|m mask IH]; intros [|x a] [|y b] E; cbn;
    try reflexivity; try discriminate.
  injection E as E. destruct m; cbn; now rewrite (IH a b E).
Qed.

Lemma compress_map_filter (p : A -> bool) (l : list A) :
  compress (map p l) l = filter p l.
Proof.
  induction l as [|x l IH]; cbn; [reflexivity|]. now rewrite IH.
Qed.

Lemma map2_length (C : Type) (f g : A -> B -> C) (a : list A) (b : list B) :
  List.length (map2 f a b) = List.length (map2 g a b).
Proof.
  revert b. induction a as [|x a IH]; intros [|y b]; cbn; try reflexivity.
  now rewrite (IH b).
Qed.

Lemma combine_snoc (a : list A) (b : list B) x y :
  List.length a = List.length b ->
  combine (a ++ [x]) (b ++ [y]) = combine a b ++ [(x, y)].
Proof.
  revert b. induction a as [|x' a IH]; intros [|y' b] E; cbn;
    try reflexivity; try discriminate.
  injection E as E. now rewrite (IH b E).
Qed.

Lemma combine_rev (a : list A) (b : list B) :
  List.length a = List.length b ->
  combine (rev a) (rev b) = rev (combine a b).
Proof.
  revert b. induction a as [|x a IH]; intros [|y b] E; cbn;
    try reflexivity; try discriminate.
  injection E as E. rewrite combine_snoc by now rewrite !length_rev.
  now rewrite (IH b E).
Qed.

Lemma combine_removelast (a : list A) (b : list B) :
  List.length a = List.length b ->
  combine (removelast a) (removelast b) = removelast (combine a b).
Proof.
  revert b. induction a as [|x a IH]; intros [|y b] E;
    try reflexivity; try discriminate.
  injection E as E. specialize (IH b E).
  destruct a as [|x' a], b as [|y' b]; try discriminate; [reflexivity|].
  cbn in IH |- *. now rewrite IH.
Qed.

Lemma combine_rev_but_last (a : list A) (b : list B) :
  List.length a = List.length b ->
  combine (rev_but_last a) (rev_but_last b) = rev_but_last (combine a b).
Proof.
  intros E. unfold rev_but_last.
  rewrite combine_rev, combine_removelast; [reflexivity|exact E|].
  destruct a as [|x a], b as [|y b]; try discriminate; [reflexivity|].
  revert x y b E. induction a as [|x' a IH]; intros x y [|y' b] E;
    try discriminate; [reflexivity|].
  injection E as E. cbn [removelast List.length] in *.
  f_equal. apply (IH x' y' b). now f_equal.
Qed.

Lemma index_last_combine (a : list A) (b : list B) x y :
  List.length a = List.length b ->
  index_last a = Ok x -> index_last b = Ok y ->
  index_last (combine a b) = Ok (x, y).
Proof.
  intros E. unfold index_last. rewrite <- combine_rev by exact E.
  destruct (rev a) as [|x' a'], (rev b) as [|y' b']; try discriminate.
  now intros [= ->] [= ->].
Qed.

End ArrayFacts.

Section PoleFaces.
Context {F : Type} `{FloatOps F} `{ElemOps F}.
Local Open Scope py_scope.

Lemma within_radius_mask x_center y_center max_extended_radius (x_face y_face : list F) :
  within_radius x_center y_center max_extended_radius x_face y_face
  = map (within_max x_center y_center max_extended_radius) (combine x_face y_face).
Proof.
  unfold within_radius. revert y_face.
  induction x_face as [|x x_face IH]; intros [|y y_face]; cbn; try reflexivity.
  now rewrite IH.
Qed.

(** The two coordinate arrays kept by the mask are the coordinates of the
    sampled points that pass the clipping test, in order. *)
Lemma pole_face_points x_center y_center central_bend_radius max_extended_radius ξ ζ φ :
  let face :=
    pole_face x_center y_center central_bend_radius max_extended_radius ξ ζ φ in
  combine (fst face) (snd face)
  = filter (within_max x_center y_center max_extended_radius)
      (face_points x_center y_center central_bend_radius ξ ζ φ)
  /\ List.length (fst face) = List.length (snd face).
Proof.
  unfold pole_face, face_points.
  destruct (face_samples x_center y_center central_bend_radius ξ ζ φ)
    as [x_face y_face] eqn:E.
  cbn [fst snd]. split.
  - rewrite compress_combine, within_radius_mask. apply compress_map_filter.
  - apply compress_length.
    unfold face_samples in E. injection E as <- <-. apply map2_length.
Qed.

Lemma block_outline_points x_center y_center θ bend_angle
    min_extended_radius max_extended_radius x_back y_back x_front y_front block :
  List.length x_back = List.length y_back ->
  List.length x_front = List.length y_front ->
  block_outline x_center y_center θ bend_angle min_extended_radius
    max_extended_radius x_back y_back x_front y_front = Ok block ->
  exists back_last front_last,
    index_last (combine x_back y_back) = Ok back_last /\
    index_last (combine x_front y_front) = Ok front_last /\
    block = outline x_center y_center θ bend_angle min_extended_radius
              max_extended_radius (combine x_back y_back) (combine x_front y_front)
              back_last front_last.
Proof.
  intros Eback Efront E. apply block_outline_inv in E.
  destruct E as (xb & yb & xf & yf & Hxb & Hyb & Hxf & Hyf & ->).
  exists (xb, yb), (xf, yf). repeat split.
  - now apply index_last_combine.
  - now apply index_last_combine.
  - unfold outline. cbn [fst snd]. now rewrite combine_rev_but_last.
Qed.

(** Everything the pure part of the renderer computes on the way to the
    outline. *)
Lemma bending_magnet_block_faces x y θ length field min_bend_radius
    max_bend_radius gap_height in_shape_parameters out_shape_parameters
    x_center y_center central_bend_radius bend_angle block :
  bending_magnet_block x y θ length field min_bend_radius max_bend_radius
    gap_height in_shape_parameters out_shape_parameters
  = Ok (x_center, y_center, central_bend_radius, bend_angle, block) ->
  let min_extended_radius := min_bend_radius - of_Q 1.5 * gap_height in
  let max_extended_radius := max_bend_radius + of_Q 1.5 * gap_height in
  let ξ := linspace (min_extended_radius - central_bend_radius)
                    (max_extended_radius - central_bend_radius) 21 in
  exists ζ_back ζ,
    evaluate_polynomial ξ (of_Q 0 :: in_shape_parameters)
      (min_bend_radius - central_bend_radius) (max_bend_radius - central_bend_radius)
    = Ok ζ_back /\
    evaluate_polynomial ξ (of_Q 0 :: out_shape_parameters)
      (min_bend_radius - central_bend_radius) (max_bend_radius - central_bend_radius)
    = Ok ζ /\
    let back := filter (within_max x_center y_center max_extended_radius)
                  (face_points x_center y_center central_bend_radius ξ ζ_back θ) in
    let front := filter (within_max x_center y_center max_extended_radius)
                   (face_points x_center y_center central_bend_radius ξ (map fneg ζ)
                      (θ + bend_angle)) in
    exists back_last front_last,
      index_last back = Ok back_last /\
      index_last front = Ok front_last /\
      block = outline x_center y_center θ bend_angle min_extended_radius
                max_extended_radius back front back_last front_last.
Proof.
  unfold bending_magnet_block. intros E.
  destruct (bend_kinematics length field) as [[[p r] a]|]; [|discriminate].
  cbn [rbind] in E.
  destruct (evaluate_polynomial _ (of_Q 0 :: in_shape_parameters) _ _) as [ζ_back|] eqn:Eb;
    [|discriminate].
  cbn [rbind] in E.
  match type of E with
  | context [pole_face ?xc ?yc ?r ?mx ?xi ζ_back ?phi] =>
      pose proof (pole_face_points xc yc r mx xi ζ_back phi) as [Hback Lback];
      destruct (pole_face xc yc r mx xi ζ_back phi) as [x_back y_back]
  end.
  destruct (evaluate_polynomial _ (of_Q 0 :: out_shape_parameters) _ _) as [ζ|] eqn:Ef;
    [|discriminate].
  cbn [rbind] in E.
  match type of E with
  | context [pole_face ?xc ?yc ?r ?mx ?xi (map fneg ζ) ?phi] =>
      pose proof (pole_face_points xc yc r mx xi (map fneg ζ) phi) as [Hfront Lfront];
      destruct (pole_face xc yc r mx xi (map fneg ζ) phi) as [x_front y_front]
  end.
  destruct (block_outline _ _ _ _ _ _ _ _ _ _) as [b|] eqn:Eo; [|discriminate].
  cbn [rbind] in E. injection E as <- <- <- <- <-.
  cbn [fst snd] in *.
  apply block_outline_points in Eo; [|exact Lback|exact Lfront].
  destruct Eo as (back_last & front_last & Hbl & Hfl & ->).
  exists ζ_back, ζ. split; [exact Eb|]. split; [exact Ef|].
  cbv zeta. rewrite <- Hback, <- Hfront.
  exists back_last, front_last. repeat split; assumption.
Qed.

End PoleFaces.

Section Clipping.
Context {F : Type} `{FloatOps F} `{ElemOps F}.
Local Open Scope py_scope.

(** The sampled points of a face, coordinate by coordinate. *)
Lemma face_points_formula x_center y_center central_bend_radius ξ ζ φ :
  face_points x_center y_center central_bend_radius ξ ζ φ
  = map2 (fun ξi ζi =>
            (x_center + (central_bend_radius + ξi) * sin φ + ζi * cos φ,
             y_center - (central_bend_radius + ξi) * cos φ + ζi * sin φ)) ξ ζ.
Proof.
  unfold face_points, face_samples. cbn [fst snd].
  revert ζ. induction ξ as [|ξi ξ IH]; intros [|ζi ζ]; cbn [map2 combine];
    [reflexivity..|].
  now rewrite IH.
Qed.

(** C7. In the closed polygon of the bending magnet, the entry-face
    (back) and exit-face (front) points are exactly the sampled points
    that pass the test R <= max extended radius, in sampling order.  The
    samples are the 21 points
    (x_c + (r + ξ) sin φ + ζ cos φ, y_c - (r + ξ) cos φ + ζ sin φ), with
    φ the entry heading and ζ the entry profile for the back face, φ the
    exit heading and ζ minus the exit profile for the front face; R is
    [hypot] of the offsets of a point from the bend centre
    (x_c, y_c) = (x - r sin θ, y + r cos θ).  Every retained point has R
    at most the max extended radius, and a point whose R exceeds it is on
    neither face of the polygon.  Of the comparison only
    [a <= b -> not (b < a)] is assumed. *)
Theorem pole_face_points_clipped
    (le_not_gt : forall a b : F, (a <=? b) = true -> (b <? a) = false)
    x y θ length field min_bend_radius max_bend_radius gap_height
    in_shape_parameters out_shape_parameters (graphic new : list (Path F)) path :
  graphic_after
    (draw_bending_magnet x y θ length field min_bend_radius max_bend_radius
       gap_height in_shape_parameters out_shape_parameters) graphic
  = graphic ++ new ->
  In path new ->
  klass path = "magnet"%string ->
  exists central_momentum central_bend_radius bend_angle ζ_back ζ,
    bend_kinematics length field = Ok (central_momentum, central_bend_radius, bend_angle) /\
    let x_center := x - central_bend_radius * sin θ in
    let y_center := y + central_bend_radius * cos θ in
    let min_extended_radius := min_bend_radius - of_Q 1.5 * gap_height in
    let max_extended_radius := max_bend_radius + of_Q 1.5 * gap_height in
    let ξ := linspace (min_extended_radius - central_bend_radius)
                      (max_extended_radius - central_bend_radius) 21 in
    evaluate_polynomial ξ (of_Q 0 :: in_shape_parameters)
      (min_bend_radius - central_bend_radius) (max_bend_radius - central_bend_radius)
    = Ok ζ_back /\
    evaluate_polynomial ξ (of_Q 0 :: out_shape_parameters)
      (min_bend_radius - central_bend_radius) (max_bend_radius - central_bend_radius)
    = Ok ζ /\
    let R := fun pt : F * F => hypot (fst pt - x_center) (snd pt - y_center) in
    let sample := fun φ ξi ζi =>
      (x_center + (central_bend_radius + ξi) * sin φ + ζi * cos φ,
       y_center - (central_bend_radius + ξi) * cos φ + ζi * sin φ) in
    let back := filter (fun pt => R pt <=? max_extended_radius)
                  (map2 (sample θ) ξ ζ_back) in
    let front := filter (fun pt => R pt <=? max_extended_radius)
                   (map2 (sample (θ + bend_angle)) ξ (map fneg ζ)) in
    exists back_last front_last,
      index_last back = Ok back_last /\
      index_last front = Ok front_last /\
      commands path
      = outline x_center y_center θ bend_angle min_extended_radius
          max_extended_radius back front back_last front_last /\
      (forall pt, In pt back \/ In pt front -> (R pt <=? max_extended_radius) = true) /\
      (forall pt,
         (max_extended_radius <? R pt) = true -> ~ In pt back /\ ~ In pt front).
Proof.
  intros Eg Hpath Hklass.
  unfold graphic_after in Eg. rewrite draw_bending_magnet_run in Eg.
  destruct (bending_magnet_block _ _ _ _ _ _ _ _ _ _)
    as [[[[[x_center y_center] r] a] block]|e] eqn:Eb; cbn [fst] in Eg.
  2:{ rewrite <- (app_nil_r graphic) in Eg at 1.
      apply app_inv_head in Eg. subst new. contradiction. }
  apply app_inv_head in Eg. subst new.
  assert (Hcmd : commands path = block).
  { cbn in Hpath. destruct Hpath as [<-|[<-|[<-|[<-|[]]]]];
      [reflexivity|discriminate Hklass..]. }
  pose proof (bending_magnet_block_kinematics _ _ _ _ _ _ _ _ _ _ Eb)
    as (p & Ek & Ex & Ey & _).
  pose proof (bending_magnet_block_faces _ _ _ _ _ _ _ _ _ _ Eb) as Hfaces.
  cbv zeta in Hfaces.
  destruct Hfaces as (ζ_back & ζ & Hb & Hf & back_last & front_last & Hbl & Hfl & Hblock).
  repeat rewrite face_points_formula in Hbl.
  repeat rewrite face_points_formula in Hfl.
  repeat rewrite face_points_formula in Hblock.
  unfold within_max, radial_distance in Hbl, Hfl, Hblock.
  subst x_center y_center.
  exists p, r, a, ζ_back, ζ. split; [exact Ek|]. cbv zeta.
  split; [exact Hb|]. split; [exact Hf|].
  exists back_last, front_last.
  split; [exact Hbl|]. split; [exact Hfl|]. split; [rewrite Hcmd; exact Hblock|].
  split.
  - intros pt [Hin|Hin]; apply filter_In in Hin; exact (proj2 Hin).
  - intros pt Hgt. split; intros Hin; apply filter_In in Hin;
      destruct Hin as [_ Hle];
      apply le_not_gt in Hle; rewrite Hle in Hgt; discriminate.
Qed.

End Clipping.

(** On the sample magnet the polygon is the outline through the clipped
    faces, all of whose points lie within the max extended radius of the
    bend centre. *)
Lemma pole_face_points_clipped_witness :
  exists x_center y_center bend_angle min_extended_radius max_extended_radius
         (back front : list (Q * Q)) back_last front_last,
    commands demo_block_path
    = outline x_center y_center 0 bend_angle min_extended_radius max_extended_radius
        back front back_last front_last /\
    forall pt, In pt back \/ In pt front ->
      fleb (hypot (fsub (fst pt) x_center) (fsub (snd pt) y_center)) max_extended_radius
      = true.
Proof.
  assert (Hpath : In demo_block_path demo_magnet_paths) by (left; reflexivity).
  assert (Hklass : klass demo_block_path = "magnet"%string) by reflexivity.
  destruct (@pole_face_points_clipped Q _ _ Q_le_not_gt
              0 0 0 1 (14011 # 299800) (1 # 2) (3 # 2) (1 # 10)
              [1 # 2; 0; 0] [1 # 2; 0; 0] [] demo_magnet_paths demo_block_path
              demo_magnet_after Hpath Hklass)
    as (p & r & a & ζ_back & ζ & _ & _ & _ & back_last & front_last & _ & _ & Hcmd & Hin & _).
  do 9 eexists. split; [exact Hcmd|exact Hin].
Defined.

(* ================================================================== *)
(** ** The upper seam of the shape evaluator *)

Section Seam.
Context {F : Type} `{FloatOps F}.
Local Open Scope py_scope.

(** At a breakpoint none of whose powers raises, the anchor value [y0] is
    computed by the very operations of the middle branch. *)
Lemma rfold_tangent_nonzero breakpoint items y0 m :
  (forall n, py_pow breakpoint n = Ok (breakpoint ** n)) ->
  exists m',
    rfold (tangent_step breakpoint) items (y0, m)
    = Ok (fold_left (fun y ic => y + snd ic * breakpoint ** fst ic) items y0, m').
Proof.
  intros E. revert y0 m.
  induction items as [|[i c] rest IH]; intros y0 m; cbn [rfold fold_left].
  - now exists m.
  - unfold tangent_step at 1. rewrite !E. cbn [rbind fst snd].
    apply IH.
Qed.

Lemma tangent_at_nonzero coefficients breakpoint :
  (forall n, py_pow breakpoint n = Ok (breakpoint ** n)) ->
  exists m, tangent_at coefficients breakpoint = Ok (y_middle_at coefficients breakpoint, m).
Proof. intros E. unfold tangent_at, y_middle_at. now apply rfold_tangent_nonzero. Qed.

End Seam.

(** On the rationals a power of a nonzero number never raises. *)
Lemma Q_py_pow_nonzero (b : Q) (n : Z) : ~ b == 0 -> py_pow b n = Ok (fpow b n).
Proof.
  intros Hb. unfold py_pow.
  assert (E : feqb b (of_Q 0) = false).
  { q_ops. destruct (Qeq_bool b (Qred 0)) eqn:E; [|reflexivity].
    apply Qeq_bool_iff in E. rewrite Qred_correct in E. contradiction. }
  rewrite E. cbn [andb fis_inf Q_FloatOps]. now rewrite andb_false_r.
Qed.

(** Away from zero the upper seam is continuous.  With nonzero
    breakpoints, lower <= upper, a sample
    equal to the upper breakpoint takes the upper branch
    [m_upper*(x - upper) + y0_upper], whose value is the one of the
    polynomial [y_middle] there. *)
Theorem evaluate_polynomial_at_upper_breakpoint (coefficients : list Q) (lower upper : Q) :
  lower <= upper -> ~ lower == 0 -> ~ upper == 0 ->
  exists v,
    evaluate_polynomial [upper] coefficients lower upper = Ok [v] /\
    v == y_middle_at coefficients upper.
Proof.
  intros Hle Hlower Hupper.
  unfold evaluate_polynomial.
  destruct (@tangent_at_nonzero Q _ coefficients lower
              (fun n => Q_py_pow_nonzero n Hlower)) as [m_lower ->].
  destruct (@tangent_at_nonzero Q _ coefficients upper
              (fun n => Q_py_pow_nonzero n Hupper)) as [m_upper ->].
  cbn [rbind map where_].
  assert (E1 : fltb upper lower = false).
  { q_ops. apply Qle_bool_iff in Hle. now rewrite Hle. }
  assert (E2 : fltb upper upper = false).
  { q_ops. now rewrite (proj2 (Qle_bool_iff upper upper) (Qle_refl upper)). }
  rewrite E1, E2.
  eexists. split; [reflexivity|].
  generalize (y_middle_at coefficients upper). intros y0.
  q_ops. rewrite !Qred_correct. ring.
Qed.

Lemma evaluate_polynomial_at_upper_breakpoint_witness :
  exists v,
    evaluate_polynomial [1]%Q [0; 2; 0]%Q (-1)%Q 1%Q = Ok [v] /\
    v == y_middle_at [0; 2; 0]%Q 1%Q.
Proof.
  apply evaluate_polynomial_at_upper_breakpoint.
  - vm_compute. discriminate.
  - intros E. vm_compute in E. discriminate E.
  - intros E. vm_compute in E. discriminate E.
Defined.

(* ================================================================== *)
(** ** Sample runs *)

Example draw_drift_length_example :
  draw_drift_length 0 0 0 2 []
  = ([mkPath "central-ray"
        [("M"%string, [PyFloat 0; PyFloat 0]); ("L"%string, [PyFloat 2; PyFloat 0])] 2],
     Ok (2, 0))%Q.
Proof. vm_compute. reflexivity. Qed.

Example draw_multipole_magnet_example :
  draw_multipole_magnet 0 0 0 3 1 []
  = ([mkPath "magnet"
        [("M"%string, [PyFloat 0; PyFloat (-1)]); ("L"%string, [PyFloat 0; PyFloat 1]);
         ("L"%string, [PyFloat 3; PyFloat 1]); ("L"%string, [PyFloat 3; PyFloat (-1)]);
         ("Z"%string, [])] 1;
      mkPath "central-ray"
        [("M"%string, [PyFloat 0; PyFloat 0]); ("L"%string, [PyFloat 3; PyFloat 0])] 2],
     Ok (3, 0))%Q.
Proof. vm_compute. reflexivity. Qed.

(** One sample of each face of the sample magnet is clipped: the outline
    has 2 + 19 + 2 + 20 + 1 commands. *)
Example demo_block_path_commands : List.length (commands demo_block_path) = 44%nat.
Proof. reflexivity. Qed.

(** The built-in parameter block defines 27 parameters. *)
Example parse_parameters_builtin :
  exists parameters : dict Q,
    parse_parameters PARAMETER_STRING = Ok parameters /\
    List.length parameters = 27%nat /\
    dict_get "p_dipole_field" parameters = Ok (3201551 # 10000000) /\
    dict_get "foil_width" parameters = Ok (3 # 100).
Proof. eexists. split; [vm_compute; reflexivity|]. repeat split. Qed.

(* ================================================================== *)
(** ** The whole layout *)

Section Layout.
Context {F : Type} `{FloatOps F} `{ElemOps F}.

(** The fixed sequence of elements only appends, and every record it
    leaves in the list has the stacking order of its class; the list
    handed to the serializer is of that kind. *)
Lemma lay_out_stacking (parameters : dict F) :
  appends_only stacking_ok (lay_out parameters).
Proof.
  unfold lay_out. cbv zeta.
  repeat first
    [ apply appends_only_lift
    | apply draw_plane_appends; apply stacking_ok_plane
    | apply draw_drift_length_appends; apply stacking_ok_ray
    | apply draw_multipole_magnet_appends; [apply stacking_ok_body|apply stacking_ok_ray]
    | apply draw_bending_magnet_appends; intros ? _; apply bending_magnet_paths_stacking
    | apply appends_only_dbind; [|intros ?]
    | match goal with
      | |- appends_only _ (let '(_, _) := ?p in _) => destruct p
      end ].
Qed.

Lemma lay_out_serialization_order (parameters : dict F) :
  all_before (sorted (@zorder F) (graphic_after (lay_out parameters) []))
    is_body is_trace.
Proof.
  destruct (lay_out_stacking parameters []) as [new [E Hok]].
  rewrite E. cbn [app]. now apply sorted_bodies_first.
Qed.

End Layout.

(* ================================================================== *)
(** * Further properties *)

(** ** The shape evaluator, sample by sample *)

Section EvaluatorPointwise.
Context {F : Type} `{FloatOps F}.
Local Open Scope py_scope.

Lemma where_map (A B : Type) (c : A -> bool) (f g : A -> B) (x : list A) :
  where_ (map c x) (map f x) (map g x) = map (fun a => if c a then f a else g a) x.
Proof.
  induction x as [|a x IH]; cbn; [reflexivity|]. now rewrite IH.
Qed.

(** The evaluator computes the two anchors once and then maps one
    function over the samples. *)
Lemma evaluate_polynomial_pointwise x coefficients lower_breakpoint upper_breakpoint :
  evaluate_polynomial x coefficients lower_breakpoint upper_breakpoint
  = rbind (tangent_at coefficients lower_breakpoint) (fun lower =>
    rbind (tangent_at coefficients upper_breakpoint) (fun upper =>
    Ok (map (shape_at coefficients lower_breakpoint upper_breakpoint lower upper) x))).
Proof.
  unfold evaluate_polynomial.
  destruct (tangent_at coefficients lower_breakpoint) as [[y0l ml]|e]; [|reflexivity].
  cbn [rbind].
  destruct (tangent_at coefficients upper_breakpoint) as [[y0u mu]|e]; [|reflexivity].
  cbn [rbind]. f_equal.
  rewrite (where_map (fun xi => xi <? upper_breakpoint)).
  rewrite (where_map (fun xi => xi <? lower_breakpoint)).
  reflexivity.
Qed.

Lemma tangent_at_nil breakpoint : tangent_at [] breakpoint = Ok (of_Q 0, of_Q 0).
Proof. reflexivity. Qed.

(** The anchor computation raises ZeroDivisionError only at a zero
    breakpoint, and then there is a coefficient; its other exception is
    OverflowError. *)
Lemma tangent_at_raises coefficients breakpoint e :
  tangent_at coefficients breakpoint = Raise e ->
  (e = ZeroDivisionError /\ coefficients <> [] /\ (breakpoint ==? of_Q 0) = true)
  \/ e = OverflowError.
Proof.
  intros E. destruct coefficients as [|c rest]; [discriminate|].
  apply rfold_tangent_raises in E. destruct E as [[-> Ez]|E]; [left|now right].
  repeat split; [discriminate|exact Ez].
Qed.

Lemma evaluate_polynomial_raises x coefficients lower_breakpoint upper_breakpoint e :
  evaluate_polynomial x coefficients lower_breakpoint upper_breakpoint = Raise e ->
  e = ZeroDivisionError \/ e = OverflowError.
Proof.
  rewrite evaluate_polynomial_pointwise. intros E.
  destruct (tangent_at coefficients lower_breakpoint) as [lower|e1] eqn:El.
  - destruct (tangent_at coefficients upper_breakpoint) as [upper|e2] eqn:Eu;
      [discriminate|].
    cbn [rbind] in E. injection E as <-.
    apply tangent_at_raises in Eu. destruct Eu as [(-> & _)|Eu]; [now left|now right].
  - cbn [rbind] in E. injection E as <-.
    apply tangent_at_raises in El. destruct El as [(-> & _)|El]; [now left|now right].
Qed.

(** X1. When the evaluator returns, it returns one value per sample. *)
Theorem evaluate_polynomial_length x coefficients lower_breakpoint upper_breakpoint y :
  evaluate_polynomial x coefficients lower_breakpoint upper_breakpoint = Ok y ->
  List.length y = List.length x.
Proof.
  rewrite evaluate_polynomial_pointwise. intros E.
  destruct (tangent_at coefficients lower_breakpoint) as [lower|]; [|discriminate].
  destruct (tangent_at coefficients upper_breakpoint) as [upper|]; [|discriminate].
  injection E as <-. apply length_map.
Qed.

(** X2. The exceptions of the evaluator, called as the renderer calls
    it, with Python floats for the breakpoints.  It raises nothing but
    ZeroDivisionError and OverflowError, and ZeroDivisionError only when
    there is a coefficient and one of the breakpoints is zero.  With a
    coefficient and a zero lower breakpoint it raises ZeroDivisionError;
    with a coefficient and a zero upper breakpoint it does not return.
    Whether it raises, and what, does not depend on the samples. *)
Theorem evaluate_polynomial_exceptions x coefficients lower_breakpoint upper_breakpoint :
  (forall e,
     evaluate_polynomial x coefficients lower_breakpoint upper_breakpoint = Raise e ->
     (e = ZeroDivisionError /\ coefficients <> [] /\
      ((lower_breakpoint ==? of_Q 0) = true \/ (upper_breakpoint ==? of_Q 0) = true))
     \/ e = OverflowError) /\
  (coefficients <> [] -> (lower_breakpoint ==? of_Q 0) = true ->
   evaluate_polynomial x coefficients lower_breakpoint upper_breakpoint
   = Raise ZeroDivisionError) /\
  (coefficients <> [] -> (upper_breakpoint ==? of_Q 0) = true ->
   exists e,
     evaluate_polynomial x coefficients lower_breakpoint upper_breakpoint = Raise e) /\
  (forall x' e,
     evaluate_polynomial x coefficients lower_breakpoint upper_breakpoint = Raise e <->
     evaluate_polynomial x' coefficients lower_breakpoint upper_breakpoint = Raise e).
Proof.
  rewrite evaluate_polynomial_pointwise. repeat split.
  - intros e E.
    destruct (tangent_at coefficients lower_breakpoint) as [lower|e1] eqn:El.
    + destruct (tangent_at coefficients upper_breakpoint) as [upper|e2] eqn:Eu;
        [discriminate|].
      cbn [rbind] in E. injection E as <-.
      apply tangent_at_raises in Eu. destruct Eu as [(-> & Hne & Ez)|Eu]; [left|now right].
      repeat split; [exact Hne|now right].
    + cbn [rbind] in E. injection E as <-.
      apply tangent_at_raises in El. destruct El as [(-> & Hne & Ez)|El]; [left|now right].
      repeat split; [exact Hne|now left].
  - intros Hne Ez. destruct coefficients as [|c rest]; [contradiction|].
    now rewrite tangent_at_zero_breakpoint.
  - intros Hne Ez. destruct coefficients as [|c rest]; [contradiction|].
    destruct (tangent_at (c :: rest) lower_breakpoint) as [lower|e1].
    + cbn [rbind]. rewrite tangent_at_zero_breakpoint by exact Ez. now eexists.
    + now exists e1.
  - rewrite evaluate_polynomial_pointwise.
    destruct (tangent_at coefficients lower_breakpoint) as [lower|e1]; [|trivial].
    destruct (tangent_at coefficients upper_breakpoint) as [upper|e2]; [|trivial].
    discriminate.
  - rewrite evaluate_polynomial_pointwise.
    destruct (tangent_at coefficients lower_breakpoint) as [lower|e1]; [|trivial].
    destruct (tangent_at coefficients upper_breakpoint) as [upper|e2]; [|trivial].
    discriminate.
Qed.

(** X3. Samples are evaluated independently: the result for two arrays
    laid end to end is the two results laid end to end. *)
Theorem evaluate_polynomial_app x1 x2 coefficients lower_breakpoint upper_breakpoint :
  evaluate_polynomial (x1 ++ x2) coefficients lower_breakpoint upper_breakpoint
  = rbind (evaluate_polynomial x1 coefficients lower_breakpoint upper_breakpoint)
      (fun y1 =>
    rbind (evaluate_polynomial x2 coefficients lower_breakpoint upper_breakpoint)
      (fun y2 => Ok (y1 ++ y2))).
Proof.
  rewrite !evaluate_polynomial_pointwise.
  destruct (tangent_at coefficients lower_breakpoint) as [lower|]; [|reflexivity].
  destruct (tangent_at coefficients upper_breakpoint) as [upper|]; [|reflexivity].
  cbn [rbind]. now rewrite map_app.
Qed.

End EvaluatorPointwise.

Lemma evaluate_polynomial_length_witness :
  List.length [-2; 0; 2; -4]%Q = List.length [-1; 0; 1; -2]%Q.
Proof.
  apply (@evaluate_polynomial_length Q _ [-1; 0; 1; -2]%Q [0; 2; 0]%Q (-1)%Q 1%Q).
  vm_compute. reflexivity.
Defined.

(* ================================================================== *)
(** ** Straight elements *)

Section StraightElements.
Context {F : Type} `{FloatOps F} `{ElemOps F}.
Local Open Scope py_scope.

Lemma draw_plane_run x y θ left right (graphic : list (Path F)) :
  exists line,
    draw_plane x y θ left right graphic = (graphic ++ [mkPath "plane" line 1], Ok tt)
    /\ List.length line = 2%nat.
Proof. eexists. split; reflexivity. Qed.

Lemma draw_drift_length_run x y θ length (graphic : list (Path F)) :
  draw_drift_length x y θ length graphic
  = (graphic ++ [mkPath "central-ray"
                   [("M"%string, [PyFloat x; PyFloat y]);
                    ("L"%string, [PyFloat (x + length * cos θ);
                                  PyFloat (y + length * sin θ)])] 2],
     Ok (x + length * cos θ, y + length * sin θ)).
Proof. reflexivity. Qed.

(** X5. A drift never raises and returns the point [length] further along
    the heading; a multipole magnet of the same length returns the same
    point and draws, after its block, the very central-ray record the drift
    draws.  The block is a closed outline of five commands. *)
Theorem multipole_advances_like_drift x y θ length radius (graphic : list (Path F)) :
  returned (draw_drift_length x y θ length) graphic
  = Ok (x + length * cos θ, y + length * sin θ) /\
  exists block,
    draw_multipole_magnet x y θ length radius graphic
    = (graphic ++ mkPath "magnet" block 1
                  :: graphic_after (draw_drift_length x y θ length) [],
       returned (draw_drift_length x y θ length) graphic) /\
    List.length block = 5%nat /\
    last block (""%string, []) = ("Z"%string, []).
Proof.
  split; [reflexivity|]. eexists. split.
  - unfold draw_multipole_magnet, draw_drift_length, dbind, append, lift,
      returned, graphic_after.
    cbn. now rewrite <- app_assoc.
  - split; reflexivity.
Qed.

End StraightElements.

(* ================================================================== *)
(** ** The bending magnet: failures, continuity, size *)

Section BendingMagnetOutcome.
Context {F : Type} `{FloatOps F} `{ElemOps F}.
Local Open Scope py_scope.

Lemma py_div_raises (a b : F) e : py_div a b = Raise e -> e = ZeroDivisionError.
Proof. unfold py_div. destruct (b ==? of_Q 0); [now intros [= <-]|discriminate]. Qed.

Lemma bend_kinematics_raises length field e :
  bend_kinematics length field = Raise e -> e = ZeroDivisionError.
Proof.
  unfold bend_kinematics. intros E.
  destruct (py_div _ (of_Q 2.998e8)) as [p|e1] eqn:E1;
    [|apply py_div_raises in E1; cbn in E; congruence].
  cbn [rbind] in E.
  destruct (py_div p _) as [r|e2] eqn:E2;
    [|apply py_div_raises in E2; cbn in E; congruence].
  cbn [rbind] in E.
  destruct (py_div length r) as [a|e3] eqn:E3;
    [discriminate|apply py_div_raises in E3; cbn in E; congruence].
Qed.

Lemma index_last_raises (A : Type) (l : list A) e :
  index_last l = Raise e -> e = IndexError.
Proof. unfold index_last. destruct (rev l); [now intros [= <-]|discriminate]. Qed.

Lemma block_outline_raises x_center y_center θ bend_angle min_extended_radius
    max_extended_radius (x_back y_back x_front y_front : list F) e :
  block_outline x_center y_center θ bend_angle min_extended_radius
    max_extended_radius x_back y_back x_front y_front = Raise e ->
  e = IndexError.
Proof.
  unfold block_outline. intros E.
  destruct (index_last x_back) eqn:E1;
    [|apply index_last_raises in E1; cbn in E; congruence].
  destruct (index_last y_back) eqn:E2;
    [|apply index_last_raises in E2; cbn in E; congruence].
  destruct (index_last x_front) eqn:E3;
    [|apply index_last_raises in E3; cbn in E; congruence].
  destruct (index_last y_front) eqn:E4;
    [discriminate|apply index_last_raises in E4; cbn in E; congruence].
Qed.

Lemma bending_magnet_block_raises x y θ length field min_bend_radius
    max_bend_radius gap_height in_shape_parameters out_shape_parameters e :
  bending_magnet_block x y θ length field min_bend_radius max_bend_radius
    gap_height in_shape_parameters out_shape_parameters = Raise e ->
  e = ZeroDivisionError \/ e = OverflowError \/ e = IndexError.
Proof.
  unfold bending_magnet_block. intros E.
  destruct (bend_kinematics length field) as [[[p r] a]|e1] eqn:Ek.
  2:{ apply bend_kinematics_raises in Ek. cbn in E. left. congruence. }
  cbn [rbind] in E.
  destruct (evaluate_polynomial _ (of_Q 0 :: in_shape_parameters) _ _) as [ζ_back|e1] eqn:Eb.
  2:{ apply evaluate_polynomial_raises in Eb. cbn in E. injection E as <-. tauto. }
  cbn [rbind] in E. destruct (pole_face _ _ _ _ _ ζ_back _) as [x_back y_back].
  destruct (evaluate_polynomial _ (of_Q 0 :: out_shape_parameters) _ _) as [ζ|e1] eqn:Ef.
  2:{ apply evaluate_polynomial_raises in Ef. cbn in E. injection E as <-. tauto. }
  cbn [rbind] in E. destruct (pole_face _ _ _ _ _ (map fneg ζ) _) as [x_front y_front].
  destruct (block_outline _ _ _ _ _ _ _ _ _ _) as [b|e1] eqn:Eo; [discriminate|].
  apply block_outline_raises in Eo. cbn in E. right. right. congruence.
Qed.

(** X7. The bending-magnet renderer is all or nothing.  Either it raises
    and the path list is as it was, or it appends four records (a magnet
    at order 1, two guides and a central ray at order 2) and returns a ray
    state.  What it raises is ZeroDivisionError (a zero divisor in the
    kinematics, a zero breakpoint of the shape function), OverflowError
    (a power of a breakpoint too large for a float) or IndexError (a pole
    face with every sample clipped away). *)
Theorem draw_bending_magnet_all_or_nothing x y θ length field min_bend_radius
    max_bend_radius gap_height in_shape_parameters out_shape_parameters
    (graphic : list (Path F)) :
  let run :=
    draw_bending_magnet x y θ length field min_bend_radius max_bend_radius
      gap_height in_shape_parameters out_shape_parameters graphic in
  (exists e, (e = ZeroDivisionError \/ e = OverflowError \/ e = IndexError) /\
             run = (graphic, Raise e)) \/
  (exists block arc_max arc_min arc_central exit,
      run = (graphic ++ [ mkPath "magnet" block 1; mkPath "guide" arc_max 2;
                          mkPath "guide" arc_min 2; mkPath "central-ray" arc_central 2 ],
             Ok exit)).
Proof.
  cbv zeta. rewrite draw_bending_magnet_run.
  destruct (bending_magnet_block _ _ _ _ _ _ _ _ _ _)
    as [[[[[x_center y_center] r] a] block]|e] eqn:Eb.
  - right. unfold bending_magnet_paths. do 5 eexists. reflexivity.
  - left. exists e. split; [|reflexivity].
    eapply bending_magnet_block_raises. exact Eb.
Qed.

Lemma linspace_length (start stop : F) (num : nat) :
  List.length (linspace start stop num) = num.
Proof.
  unfold linspace. destruct num as [|[|n]]; [reflexivity..|].
  rewrite length_app, length_map, length_seq. cbn. lia.
Qed.

Lemma map2_length_le (A B C : Type) (f : A -> B -> C) (a : list A) (b : list B) :
  (List.length (map2 f a b) <= List.length a)%nat.
Proof.
  revert b. induction a as [|x a IH]; intros [|y b]; cbn; try lia.
  specialize (IH b). lia.
Qed.

Lemma face_points_length x_center y_center central_bend_radius ξ ζ φ :
  (List.length (face_points x_center y_center central_bend_radius ξ ζ φ)
   <= List.length ξ)%nat.
Proof.
  unfold face_points, face_samples. cbn [fst snd].
  rewrite length_combine.
  pose proof (map2_length_le
                (fun ξi ζi => x_center + (central_bend_radius + ξi) * sin φ + ζi * cos φ)
                ξ ζ).
  lia.
Qed.

Lemma index_last_nonempty (A : Type) (l : list A) a :
  index_last l = Ok a -> (1 <= List.length l)%nat.
Proof.
  unfold index_last. destruct l as [|b l]; [discriminate|]. cbn. lia.
Qed.

Lemma rev_but_last_length (A : Type) (l : list A) :
  List.length (rev_but_last l) = Nat.pred (List.length l).
Proof.
  unfold rev_but_last. rewrite length_rev, removelast_firstn_len, length_firstn. lia.
Qed.

(** X8. A bending magnet that is drawn has between 1 and 21 points on
    either pole face, and its outline between 6 and 46 commands, the first
    a move and the last a close. *)
Theorem bending_magnet_block_size x y θ length field min_bend_radius
    max_bend_radius gap_height in_shape_parameters out_shape_parameters
    x_center y_center central_bend_radius bend_angle block :
  bending_magnet_block x y θ length field min_bend_radius max_bend_radius
    gap_height in_shape_parameters out_shape_parameters
  = Ok (x_center, y_center, central_bend_radius, bend_angle, block) ->
  (6 <= List.length block <= 46)%nat /\
  (exists xy, hd ("", []) block = ("M", xy))%string /\
  last block (""%string, []) = ("Z"%string, []).
Proof.
  intros E. apply bending_magnet_block_faces in E. cbv zeta in E.
  destruct E as (ζ_back & ζ & _ & _ & back_last & front_last & Hb & Hf & ->).
  apply index_last_nonempty in Hb, Hf.
  match type of Hb with
  | (1 <= List.length (filter ?p ?l))%nat =>
      pose proof (filter_length_le p l);
      assert (List.length l <= 21)%nat
        by (etransitivity; [apply face_points_length|now rewrite linspace_length])
  end.
  match type of Hf with
  | (1 <= List.length (filter ?p ?l))%nat =>
      pose proof (filter_length_le p l);
      assert (List.length l <= 21)%nat
        by (etransitivity; [apply face_points_length|now rewrite linspace_length])
  end.
  unfold outline. split; [|split].
  - rewrite !length_app, !length_map, rev_but_last_length. cbn [List.length]. lia.
  - eexists. reflexivity.
  - rewrite !app_assoc. apply last_last.
Qed.

End BendingMagnetOutcome.

Lemma bending_magnet_block_size_witness :
  (6 <= List.length (commands demo_block_path) <= 46)%nat.
Proof.
  exact (proj1 (@bending_magnet_block_size Q _ _ 0 0 0 1 (14011 # 299800) (1 # 2) (3 # 2)
                  (1 # 10) [1 # 2; 0; 0] [1 # 2; 0; 0] _ _ _ _ _ demo_magnet_block)).
Defined.

(** X9. A field strength of zero is not caught: in exact arithmetic the
    bending-magnet renderer then raises ZeroDivisionError, from the
    division by [1.602e-19*field], and appends nothing. *)
Theorem draw_bending_magnet_zero_field (x y θ length field min_bend_radius
    max_bend_radius gap_height : Q) (in_shape_parameters out_shape_parameters : list Q)
    (graphic : list (Path Q)) :
  field == 0 ->
  draw_bending_magnet x y θ length field min_bend_radius max_bend_radius
    gap_height in_shape_parameters out_shape_parameters graphic
  = (graphic, Raise ZeroDivisionError).
Proof.
  intros Hfield. rewrite draw_bending_magnet_run.
  unfold bending_magnet_block, bend_kinematics, CENTRAL_ENERGY.
  rewrite Q_py_div_nonzero by (intros E; vm_compute in E; discriminate E).
  cbn [rbind]. unfold py_div at 1.
  assert (Ez : feqb (fmul (of_Q 1.602e-19) field) (of_Q 0) = true).
  { q_ops. apply Qeq_bool_iff. rewrite !Qred_correct, Hfield. ring. }
  rewrite Ez. reflexivity.
Qed.

Lemma draw_bending_magnet_zero_field_witness :
  draw_bending_magnet 0 0 0 1 0 (1 # 2) (3 # 2) (1 # 10) [1 # 2; 0; 0] [1 # 2; 0; 0] []
  = ([], Raise ZeroDivisionError).
Proof. apply draw_bending_magnet_zero_field. reflexivity. Defined.

(* ================================================================== *)
(** ** The fixed sequence of elements *)

Section ReturnsLemmas.
Context {F : Type}.

Lemma returns_dret (A : Type) (a : A) graphic (Q : list (Path F) -> A -> Prop) :
  Q graphic a -> returns (dret a) graphic Q.
Proof. intros HQ g' a' [= <- <-]. exact HQ. Qed.

Lemma returns_lift (A : Type) (r : result A) graphic (Q : list (Path F) -> A -> Prop) :
  (forall a, r = Ok a -> Q graphic a) -> returns (lift r) graphic Q.
Proof. intros HQ g' a [= <- ->]. now apply HQ. Qed.

Lemma returns_dbind (A B : Type) (m : Draw F A) (k : A -> Draw F B) graphic
    (Q : list (Path F) -> B -> Prop) :
  returns m graphic (fun graphic' a => returns (k a) graphic' Q) ->
  returns (dbind m k) graphic Q.
Proof.
  intros Hm g' b E. unfold dbind in E.
  destruct (m graphic) as [g1 [a|e]] eqn:Em; [|discriminate].
  exact (Hm g1 a Em g' b E).
Qed.

End ReturnsLemmas.

Section Sequence.
Context {F : Type} `{FloatOps F} `{ElemOps F}.
Local Open Scope py_scope.

Lemma returns_draw_plane x y θ left right graphic (Q : list (Path F) -> unit -> Prop) :
  (forall line, Q (graphic ++ [mkPath "plane" line 1]) tt) ->
  returns (draw_plane x y θ left right) graphic Q.
Proof.
  intros HQ g' a E.
  destruct (draw_plane_run x y θ left right graphic) as (line & Er & _).
  rewrite Er in E. injection E as <- <-. apply HQ.
Qed.

Lemma returns_draw_drift_length x y θ length graphic
    (Q : list (Path F) -> F * F -> Prop) :
  (forall line xy, Q (graphic ++ [mkPath "central-ray" line 2]) xy) ->
  returns (draw_drift_length x y θ length) graphic Q.
Proof.
  intros HQ g' a E. rewrite draw_drift_length_run in E. injection E as <- <-. apply HQ.
Qed.

Lemma returns_draw_multipole_magnet x y θ length radius graphic
    (Q : list (Path F) -> F * F -> Prop) :
  (forall block line xy,
      Q (graphic ++ [mkPath "magnet" block 1; mkPath "central-ray" line 2]) xy) ->
  returns (draw_multipole_magnet x y θ length radius) graphic Q.
Proof.
  intros HQ g' a E.
  unfold draw_multipole_magnet, dbind, append, lift in E. cbn in E.
  injection E as <- <-. rewrite <- app_assoc. apply HQ.
Qed.

Lemma returns_draw_bending_magnet x y θ length field min_bend_radius max_bend_radius
    gap_height in_shape_parameters out_shape_parameters graphic
    (Q : list (Path F) -> F * F * F -> Prop) :
  (forall block arc_max arc_min arc_central exit,
      Q (graphic ++ [ mkPath "magnet" block 1; mkPath "guide" arc_max 2;
                      mkPath "guide" arc_min 2; mkPath "central-ray" arc_central 2 ])
        exit) ->
  returns (draw_bending_magnet x y θ length field min_bend_radius max_bend_radius
             gap_height in_shape_parameters out_shape_parameters) graphic Q.
Proof.
  intros HQ g' a E. rewrite draw_bending_magnet_run in E.
  destruct (bending_magnet_block _ _ _ _ _ _ _ _ _ _)
    as [[[[[x_center y_center] r] ang] block]|e]; [|discriminate].
  injection E as <- <-. apply HQ.
Qed.

(** What a normal return of the layout implies: every look-up succeeded
    and twelve records were appended, of these classes and orders. *)
Lemma lay_out_returns (parameters : dict F) (graphic : list (Path F)) :
  returns (lay_out parameters) graphic (fun graphic' _ =>
    Forall (fun key => exists v, dict_get key parameters = Ok v) required_keys /\
    exists new,
      graphic' = graphic ++ new /\
      map (fun path => (klass path, zorder path)) new
      = [ ("plane", 1); ("central-ray", 2); ("plane", 1); ("magnet", 1);
          ("central-ray", 2); ("central-ray", 2); ("magnet", 1); ("guide", 2);
          ("guide", 2); ("central-ray", 2); ("central-ray", 2); ("plane", 1) ]%string%Z).
Proof.
  unfold lay_out. cbv zeta.
  repeat first
    [ apply returns_draw_plane; intros ?
    | apply returns_draw_drift_length; intros ? [? ?]
    | apply returns_draw_multipole_magnet; intros ? ? [? ?]
    | apply returns_draw_bending_magnet; intros ? ? ? ? [[? ?] ?]
    | apply returns_lift; intros ? ?
    | apply returns_dbind ].
  split.
  - unfold required_keys. repeat (constructor; [eexists; eassumption|]). constructor.
  - rewrite <- !app_assoc. eexists. split; [reflexivity|]. reflexivity.
Qed.

End Sequence.

Section SequenceProperties.
Context {F : Type} `{FloatOps F} `{ElemOps F}.

(** X11. A layout that returns has appended exactly twelve records: by
    class plane, central-ray, plane, magnet, central-ray, central-ray,
    magnet, guide, guide, central-ray, central-ray, plane; the serializer
    writes them in the order plane, plane, magnet, magnet, plane and then
    central-ray, central-ray, central-ray, guide, guide, central-ray,
    central-ray. *)
Theorem lay_out_twelve_records (parameters : dict F) (graphic : list (Path F)) :
  returned (lay_out parameters) graphic = Ok tt ->
  exists new,
    graphic_after (lay_out parameters) graphic = graphic ++ new /\
    map (@klass F) new
    = [ "plane"; "central-ray"; "plane"; "magnet"; "central-ray"; "central-ray";
        "magnet"; "guide"; "guide"; "central-ray"; "central-ray"; "plane" ]%string /\
    map (@klass F) (sorted (@zorder F) new)
    = [ "plane"; "plane"; "magnet"; "magnet"; "plane"; "central-ray"; "central-ray";
        "central-ray"; "guide"; "guide"; "central-ray"; "central-ray" ]%string.
Proof.
  unfold returned, graphic_after. intros E.
  destruct (lay_out parameters graphic) as [graphic' [[]|e]] eqn:Er; [|discriminate].
  destruct (lay_out_returns parameters graphic Er) as (_ & new & -> & Hnew).
  exists new. split; [reflexivity|].
  do 12 (destruct new as [|[? ? ?] new]; [cbn in Hnew; discriminate Hnew|]).
  destruct new; [|cbn in Hnew; discriminate Hnew].
  cbn in Hnew. injection Hnew as; subst. split; reflexivity.
Qed.

(** X12. A missing parameter is fatal: the layout returns only if each of
    the twenty keys it looks up is present. *)
Theorem lay_out_needs_every_key (parameters : dict F) (graphic : list (Path F)) :
  returned (lay_out parameters) graphic = Ok tt ->
  Forall (fun key => exists v, dict_get key parameters = Ok v) required_keys.
Proof.
  unfold returned. intros E.
  destruct (lay_out parameters graphic) as [graphic' [[]|e]] eqn:Er; [|discriminate].
  exact (proj1 (lay_out_returns parameters graphic Er)).
Qed.

(** X13. The layout reads nothing else: two parameter sets that agree on
    the twenty keys give the same run, whatever else they hold. *)
Theorem lay_out_reads_required_keys_only (parameters1 parameters2 : dict F) :
  (forall key, In key required_keys ->
     dict_get key parameters1 = dict_get key parameters2) ->
  lay_out parameters1 = lay_out parameters2.
Proof.
  intros Hagree. unfold lay_out. cbv zeta.
  repeat match goal with
         | |- context [dict_get ?key parameters1] =>
             rewrite (Hagree key) by (cbn; tauto)
         end.
  reflexivity.
Qed.

End SequenceProperties.

Lemma demo_layout_returned : returned (lay_out demo_parameters) [] = Ok tt.
Proof. vm_compute. reflexivity. Qed.

Lemma lay_out_twelve_records_witness :
  exists new : list (Path Q),
    graphic_after (lay_out demo_parameters) [] = [] ++ new /\
    map (@klass Q) new
    = [ "plane"; "central-ray"; "plane"; "magnet"; "central-ray"; "central-ray";
        "magnet"; "guide"; "guide"; "central-ray"; "central-ray"; "plane" ]%string /\
    map (@klass Q) (sorted (@zorder Q) new)
    = [ "plane"; "plane"; "magnet"; "magnet"; "plane"; "central-ray"; "central-ray";
        "central-ray"; "guide"; "guide"; "central-ray"; "central-ray" ]%string.
Proof. exact (@lay_out_twelve_records Q _ _ demo_parameters [] demo_layout_returned). Defined.

Lemma lay_out_needs_every_key_witness :
  Forall (fun key => exists v, dict_get key demo_parameters = Ok v) required_keys.
Proof. exact (@lay_out_needs_every_key Q _ _ demo_parameters [] demo_layout_returned). Defined.

(** The display-only bend angle changes nothing. *)
Lemma lay_out_reads_required_keys_only_witness :
  lay_out (dict_set "dipole_bend_angle" (7782928 # 100000) demo_parameters)
  = lay_out demo_parameters.
Proof.
  apply lay_out_reads_required_keys_only.
  intros key Hin. cbn in Hin.
  repeat (destruct Hin as [<-|Hin]; [reflexivity|]). contradiction.
Defined.

(* ================================================================== *)
(** ** The line pattern *)







Example line_match_examples :
  line_match "  Foo_1 :=-2.0e3;" = Some ("Foo_1", "-2.0e3")%string /\
  line_match "# comment" = None /\
  line_match "" = None /\
  line_match "x := 1; " = None /\
  line_match "x = 1;" = None.
Proof. repeat split. Qed.

(* ================================================================== *)
(** ** Parameter texts, line by line *)

Lemma rfold_app (A B : Type) (body : A -> B -> result A) (l1 l2 : list B) (acc : A) :
  rfold body (l1 ++ l2) acc = rbind (rfold body l1 acc) (rfold body l2).
Proof.
  revert acc. induction l1 as [|b l1 IH]; intros acc; cbn [app rfold rbind].
  - reflexivity.
  - destruct (body acc b) as [acc'|e]; cbn [rbind]; [apply IH|reflexivity].
Qed.

Lemma split_lines_nonempty (s : string) : split_lines s <> [].
Proof.
  induction s as [|c s IH]; cbn [split_lines]; [discriminate|].
  destruct (nat_of_ascii c =? 10)%nat; [discriminate|].
  destruct ((nat_of_ascii c =? 13)%nat && _); [exact IH|].
  destruct (split_lines s); discriminate.
Qed.

(** A text without line feed is one line. *)
Lemma split_lines_one_line (s : string) :
  string_forall (fun c => negb (is_line_feed c)) s = true -> split_lines s = [s].
Proof.
  induction s as [|c s IH]; cbn [string_forall split_lines]; [reflexivity|].
  intros E. apply andb_prop in E. destruct E as [Hc Hs].
  unfold is_line_feed in Hc. apply negb_true_iff in Hc. rewrite Hc.
  rewrite (IH Hs).
  destruct s as [|d s'].
  - now rewrite andb_false_r.
  - cbn [string_forall] in Hs. apply andb_prop in Hs. destruct Hs as [Hd _].
    unfold is_line_feed in Hd. apply negb_true_iff in Hd.
    now rewrite Hd, andb_false_r.
Qed.

(** A line feed between two texts separates their lines, unless it
    completes a carriage return that ends the first. *)
Lemma split_lines_app (a b : string) :
  ends_with_cr a = false ->
  split_lines (a ++ newline ++ b) = split_lines a ++ split_lines b.
Proof.
  induction a as [|c a IH]; intros E.
  - reflexivity.
  - assert (Ea : ends_with_cr a = false).
    { destruct a as [|d a']; [reflexivity|exact E]. }
    specialize (IH Ea).
    cbn [String.append split_lines]. rewrite IH.
    destruct (nat_of_ascii c =? 10)%nat; [reflexivity|].
    destruct a as [|d a'].
    + cbn [ends_with_cr] in E. rewrite E. reflexivity.
    + cbn [String.append].
      destruct ((nat_of_ascii c =? 13)%nat && (nat_of_ascii d =? 10)%nat);
        [reflexivity|].
      pose proof (split_lines_nonempty (String d a')) as Hne.
      destruct (split_lines (String d a')) as [|l ls]; [contradiction|reflexivity].
Qed.



Section ParserLines.
Context {F : Type} `{FloatOps F}.


(** X16. A line that does not match the pattern changes nothing: the
    text with such a line added parses to the same parameters. *)
Theorem parse_parameters_ignores_line (text line : string) (parameters : dict F) :
  parse_parameters text = Ok parameters ->
  ends_with_cr text = false ->
  string_forall (fun c => negb (is_line_feed c)) line = true ->
  line_match line = None ->
  parse_parameters (text ++ newline ++ line) = Ok parameters.
Proof.
  intros Et Hcr Hlf Hm. unfold parse_parameters in *.
  rewrite split_lines_app by exact Hcr.
  rewrite rfold_app, Et. cbn [rbind].
  rewrite split_lines_one_line by exact Hlf.
  cbn [rfold]. rewrite Hm. reflexivity.
Qed.

End ParserLines.


Lemma parse_parameters_ignores_line_witness :
  @parse_parameters Q _ ("foo := 1.5;" ++ newline ++ "# comment")
  = Ok [("foo"%string, 3 # 2)].
Proof.
  apply (@parse_parameters_ignores_line Q _ "foo := 1.5;" "# comment"); reflexivity.
Defined.

(* ================================================================== *)
(** ** What the serializer writes *)

Lemma rmap_ok_iff (A B : Type) (f : A -> result B) (l : list A) :
  (exists bs, rmap f l = Ok bs) <-> (forall a, In a l -> exists b, f a = Ok b).
Proof.
  induction l as [|a l IH]; cbn [rmap].
  - split; [intros _ a []|intros _; now exists []].
  - split.
    + intros [bs E] a' [<-|Hin].
      * destruct (f a) as [b|]; [now exists b|discriminate].
      * apply IH; [|exact Hin].
        destruct (f a); [|discriminate]. cbn [rbind] in E.
        destruct (rmap f l) as [bs'|]; [now exists bs'|discriminate].
    + intros Hall.
      destruct (Hall a (or_introl eq_refl)) as [b ->].
      destruct (proj2 IH (fun a' Hin => Hall a' (or_intror Hin))) as [bs ->].
      now exists (b :: bs).
Qed.

Lemma rmap_raises (A B : Type) (f : A -> result B) (l : list A) e :
  rmap f l = Raise e -> exists a, In a l /\ f a = Raise e.
Proof.
  induction l as [|a l IH]; cbn [rmap]; [discriminate|].
  destruct (f a) as [b|e'] eqn:Ea; cbn [rbind].
  - destruct (rmap f l) as [bs|e'']; [discriminate|].
    intros [= ->]. destruct (IH eq_refl) as (a' & Hin & E).
    exists a'. split; [now right|exact E].
  - intros [= ->]. exists a. split; [now left|exact Ea].
Qed.

Section SerializerOutcome.
Context {F : Type} `{FloatOps F}.

Lemma format_number_ok_iff (v : pynum F) :
  (exists s, format_number v = Ok s) <-> writable v.
Proof.
  destruct v as [z|f]; cbn.
  - split; [trivial|intros _; eexists; reflexivity].
  - destruct (fis_nan f), (fis_inf f), (feqb f (of_Z (ftrunc f))); split;
      try (intros [s E]; discriminate E);
      try (intros (E1 & E2 & E3); discriminate).
    + now repeat split.
    + intros _. eexists. reflexivity.
Qed.

Lemma format_number_raises (v : pynum F) e :
  format_number v = Raise e ->
  e = ValueError \/ (e = OverflowError /\ exists f, v = PyFloat f /\ fis_inf f = true).
Proof.
  destruct v as [z|f]; cbn; [discriminate|].
  destruct (fis_nan f); [intros [= <-]; now left|].
  destruct (fis_inf f) eqn:Ei.
  - intros [= <-]. right. split; [reflexivity|]. now exists f.
  - destruct (feqb f (of_Z (ftrunc f))); [intros [= <-]; now left|discriminate].
Qed.

Lemma path_data_ok_iff (path : Path F) :
  (exists d, path_data path = Ok d) <->
  (forall c v, In c (commands path) -> In v (snd c) -> writable v).
Proof.
  unfold path_data.
  match goal with
  | |- context [rmap ?f (commands path)] => set (line := f)
  end.
  assert (Hline : forall c, (exists s, line c = Ok s) <->
                            (forall v, In v (snd c) -> writable v)).
  { intros c. unfold line. split.
    - intros [s E] v Hin. apply format_number_ok_iff.
      destruct (rmap format_number (snd c)) as [args|] eqn:Ea; [|discriminate].
      exact (proj1 (rmap_ok_iff format_number (snd c)) (ex_intro _ args Ea) v Hin).
    - intros Hall.
      destruct (proj2 (rmap_ok_iff format_number (snd c))
                  (fun v Hin => proj2 (format_number_ok_iff v) (Hall v Hin)))
        as [args ->].
      eexists. reflexivity. }
  split.
  - intros [d E] c v Hc Hv.
    destruct (rmap line (commands path)) as [parts|] eqn:Ep; [|discriminate].
    exact (proj1 (Hline c)
             (proj1 (rmap_ok_iff line (commands path)) (ex_intro _ parts Ep) c Hc)
             v Hv).
  - intros Hall.
    destruct (proj2 (rmap_ok_iff line (commands path))
                (fun c Hc => proj2 (Hline c) (fun v Hv => Hall c v Hc Hv)))
      as [parts ->].
    eexists. reflexivity.
Qed.

Lemma path_data_raises (path : Path F) e :
  path_data path = Raise e ->
  e = ValueError \/
  (e = OverflowError /\
   exists c f, In c (commands path) /\ In (PyFloat f) (snd c) /\ fis_inf f = true).
Proof.
  unfold path_data. intros E.
  destruct (rmap _ (commands path)) as [parts|e'] eqn:Ep; [discriminate|].
  cbn [rbind] in E. injection E as <-.
  apply rmap_raises in Ep. destruct Ep as (c & Hc & Ec).
  destruct (rmap format_number (snd c)) as [args|e''] eqn:Ea; [discriminate|].
  cbn [rbind] in Ec. injection Ec as <-.
  apply rmap_raises in Ea. destruct Ea as (v & Hv & Ev).
  apply format_number_raises in Ev.
  destruct Ev as [Ev|(Ev & f & -> & Ef)]; [now left|right].
  split; [exact Ev|]. now exists c, f.
Qed.

Lemma write_loop_ok_iff (paths : list (Path F)) (svg_string : string) :
  (exists body,
      rfold (fun svg_string path =>
               rbind (path_data path) (fun d =>
               Ok (svg_string ++ "  <path class=" ++ quote ++ klass path ++ quote
                     ++ " d=" ++ quote ++ d ++ quote ++ " />" ++ newline)%string))
            paths svg_string = Ok body) <->
  (forall path, In path paths -> exists d, path_data path = Ok d).
Proof.
  revert svg_string. induction paths as [|path paths IH]; intros svg_string; cbn [rfold].
  - split; [intros _ p []|intros _; eexists; reflexivity].
  - split.
    + intros [body E] p [<-|Hin].
      * destruct (path_data path) as [d|]; [now exists d|discriminate].
      * destruct (path_data path) as [d|]; [|discriminate]. cbn [rbind] in E.
        exact (proj1 (IH _) (ex_intro _ body E) p Hin).
    + intros Hall. destruct (Hall path (or_introl eq_refl)) as [d ->]. cbn [rbind].
      apply IH. intros p Hin. apply Hall. now right.
Qed.

Lemma write_loop_raises (paths : list (Path F)) (svg_string : string) e :
  rfold (fun svg_string path =>
           rbind (path_data path) (fun d =>
           Ok (svg_string ++ "  <path class=" ++ quote ++ klass path ++ quote
                 ++ " d=" ++ quote ++ d ++ quote ++ " />" ++ newline)%string))
        paths svg_string = Raise e ->
  e = ValueError \/ (e = OverflowError /\ has_infinite_operand paths).
Proof.
  revert svg_string. induction paths as [|path paths IH]; intros svg_string; cbn [rfold].
  - discriminate.
  - destruct (path_data path) as [d|e'] eqn:Ed; cbn [rbind].
    + intros E. apply IH in E.
      destruct E as [E|(E & p & c & f & Hp & Hrest)]; [now left|right].
      split; [exact E|]. exists p, c, f. split; [now right|exact Hrest].
    + intros [= <-]. apply path_data_raises in Ed.
      destruct Ed as [Ed|(Ed & c & f & Hrest)]; [now left|right].
      split; [exact Ed|]. exists path, c, f. split; [now left|exact Hrest].
Qed.

(** X17. The document is written if and only if every operand of every
    command of every path is an [int] or a finite float with a fractional
    part.  Otherwise [write_SVG] raises ValueError (an integral float, a
    NaN) or OverflowError, the latter only when an operand is an infinite
    float, and nothing else. *)
Theorem write_SVG_succeeds_iff (filename : string) (paths : list (Path F)) :
  ((exists document, write_SVG filename paths = Ok document) <->
   (forall path c v,
       In path paths -> In c (commands path) -> In v (snd c) -> writable v)) /\
  (forall e, write_SVG filename paths = Raise e ->
     e = ValueError \/ (e = OverflowError /\ has_infinite_operand paths)).
Proof.
  unfold write_SVG. split; [split|].
  - intros [document E] path c v Hp Hc Hv.
    match type of E with
    | rbind ?loop _ = _ => destruct loop as [body|] eqn:El; [|discriminate]
    end.
    pose proof (proj1 (write_loop_ok_iff _ _) (ex_intro _ body El) path) as Hd.
    assert (Hin : In path (sorted (@zorder F) paths)).
    { eapply Permutation_in; [apply Permutation_sym, sorted_perm|exact Hp]. }
    exact (proj1 (path_data_ok_iff path) (Hd Hin) c v Hc Hv).
  - intros Hall.
    match goal with
    | |- exists d, rbind ?loop _ = _ =>
        assert (Hl : exists body, loop = Ok body)
    end.
    { apply write_loop_ok_iff. intros path Hin. apply path_data_ok_iff.
      intros c v. apply Hall. eapply Permutation_in; [apply sorted_perm|exact Hin]. }
    destruct Hl as [body ->]. eexists. reflexivity.
  - intros e E.
    match type of E with
    | rbind ?loop _ = _ => destruct loop as [body|e'] eqn:El; [discriminate|]
    end.
    cbn [rbind] in E. injection E as <-. apply write_loop_raises in El.
    destruct El as [El|(El & path & c & f & Hp & Hrest)]; [now left|right].
    split; [exact El|]. exists path, c, f. split; [|exact Hrest].
    eapply Permutation_in; [apply sorted_perm|exact Hp].
Qed.


End SerializerOutcome.

(* ================================================================== *)
(** ** More on the parser and the plane *)

Lemma float_of_literal_raises (value : string) e :
  float_of_literal value = Raise e -> e = ValueError.
Proof.
  unfold float_of_literal.
  destruct (take_sign value) as [negative s].
  destruct (span is_digit s) as [int_digits s1].
  destruct (match s1 with
            | String "." s' => span is_digit s'
            | _ => (EmptyString, s1)
            end) as [frac_digits s2].
  destruct (is_empty int_digits && is_empty frac_digits); [now intros [= <-]|].
  destruct s2 as [|c s3]; [discriminate|].
  destruct ((nat_of_ascii c =? 101)%nat || (nat_of_ascii c =? 69)%nat);
    [|now intros [= <-]].
  destruct (take_sign s3) as [exp_negative s4].
  destruct (span is_digit s4) as [exp_digits s5].
  destruct (is_empty exp_digits || negb (is_empty s5)); [now intros [= <-]|discriminate].
Qed.

(** X19. The parser fails in one way only: whatever the text, an
    exception it raises is the ValueError of a malformed number. *)
Theorem parse_parameters_raises_value_error (F : Type) (ops : FloatOps F)
    (output : string) e :
  @parse_parameters F ops output = Raise e -> e = ValueError.
Proof.
  unfold parse_parameters. generalize (@nil (string * F)).
  induction (split_lines output) as [|line lines IH]; intros parameters; cbn [rfold].
  - discriminate.
  - destruct (line_match line) as [[key value]|]; cbn [rbind]; [|apply IH].
    destruct (float_of_literal value) as [v|e'] eqn:Ev; cbn [rbind]; [apply IH|].
    intros [= <-]. now apply float_of_literal_raises in Ev.
Qed.

Lemma parse_parameters_raises_value_error_witness :
  exists e, @parse_parameters Q _ "x := 1.2.3;" = Raise e /\ e = ValueError.
Proof.
  exists ValueError. split; [reflexivity|].
  apply (@parse_parameters_raises_value_error Q _ "x := 1.2.3;" ValueError).
  reflexivity.
Defined.

(* ================================================================== *)
(** ** Instances of the equivalences *)

Lemma evaluate_polynomial_exceptions_witness :
  evaluate_polynomial [1]%Q [0; 2; 0]%Q 0%Q 1%Q = Raise ZeroDivisionError.
Proof.
  apply (proj1 (proj2 (@evaluate_polynomial_exceptions Q _ [1]%Q [0; 2; 0]%Q 0%Q 1%Q))).
  - discriminate.
  - reflexivity.
Defined.


(** A path with the operand [1e999], which is an infinity. *)
Lemma write_SVG_succeeds_iff_witness :
  let paths : list (Path B64.float) :=
    [mkPath "plane" [("M"%string, [PyFloat (of_Q 1e999); PyFloat (of_Q 0.5)])] 1] in
  write_SVG "picture.svg" paths = Raise OverflowError /\ has_infinite_operand paths.
Proof.
  cbv zeta. split; [vm_compute; reflexivity|].
  destruct (proj2 (@write_SVG_succeeds_iff B64.float _ "picture.svg"
                     [mkPath "plane"
                        [("M"%string, [PyFloat (of_Q 1e999); PyFloat (of_Q 0.5)])] 1])
                  OverflowError) as [E|[_ Hinf]].
  - vm_compute. reflexivity.
  - discriminate E.
  - exact Hinf.
Defined.

(* ================================================================== *)
(** ** On binary64 floats *)

(** Powers of a float: [1.1**3] is 1.3310000000000004; a power beyond the
    largest float raises, one below the smallest is 0.0. *)
Example py_pow_binary64 :
  @py_pow B64.float _ (of_Q 1.1) 3 = Ok (of_Q 1.3310000000000004) /\
  @py_pow B64.float _ (of_Q 1e-200) 2 = Ok (of_Q 0) /\
  @py_pow B64.float _ (of_Q (-4.67e108)) 3 = Raise OverflowError /\
  @py_pow B64.float _ (of_Q 1e-310) (-1) = Raise OverflowError /\
  @py_pow B64.float _ (of_Q 0) (-1) = Raise ZeroDivisionError /\
  @py_pow B64.float _ (of_Q 0) 0 = Ok (of_Q 1).
Proof. repeat split; vm_compute; reflexivity. Qed.

(** X21. The evaluator on binary64 floats.  For the coefficients
    [0, 2, 0] and the breakpoints -1 and 1 the samples -1, 0, 1 and -2
    evaluate to -2, 0, 2 and -4.  With four coefficients and the lower
    breakpoint -4.67e108, whose cube is beyond the largest float, it
    raises OverflowError; so it does with one coefficient and the
    breakpoint 1e-310, whose inverse is. *)
Theorem evaluate_polynomial_binary64 :
  @evaluate_polynomial B64.float _
     [of_Q (-1); of_Q 0; of_Q 1; of_Q (-2)] [of_Q 0; of_Q 2; of_Q 0] (of_Q (-1)) (of_Q 1)
  = Ok [of_Q (-2); of_Q 0; of_Q 2; of_Q (-4)] /\
  @evaluate_polynomial B64.float _
     [of_Q 0] [of_Q 0; of_Q 1; of_Q 1; of_Q 1] (of_Q (-4.67e108)) (of_Q 1)
  = Raise OverflowError /\
  @evaluate_polynomial B64.float _ [of_Q 0] [of_Q 0] (of_Q 1e-310) (of_Q 1)
  = Raise OverflowError.
Proof. repeat split; vm_compute; reflexivity. Qed.

(** X22. The number formatter on binary64 floats.  A float with a
    fractional part is written with six decimals, rounded from the exact
    value of the float; 3.0 raises ValueError; an infinity (the literal
    1e999) raises OverflowError and a NaN ValueError, both from
    [int(x)]. *)
Theorem format_number_binary64 :
  @format_number B64.float _ (PyFloat (of_Q 0.1)) = Ok "0.100000"%string /\
  @format_number B64.float _ (PyFloat (of_Q 1234567.8125)) = Ok "1234567.812500"%string /\
  @format_number B64.float _ (PyFloat (of_Q (-1e-9))) = Ok "-0.000000"%string /\
  @format_number B64.float _ (PyFloat (of_Q 3)) = Raise ValueError /\
  @format_number B64.float _ (PyFloat (of_Q 1e999)) = Raise OverflowError /\
  @format_number B64.float _ (PyFloat (fdiv (of_Q 0) (of_Q 0))) = Raise ValueError.
Proof. repeat split; vm_compute; reflexivity. Qed.
